(** * Daily account posting: packed-decimal codec, record codec and
      the merge-join posting engine of [scripts/modern_runner.py].

    The Python code is embedded shallowly: integers are [Z], [bytes] are
    [list byte], [str] is [string], a raised exception is the [Raise]
    branch of [result], and the dictionaries built by [read_accounts] and
    [read_txns] are records whose fields carry the dictionary keys. *)

From Stdlib Require Import ZArith List Bool Ascii String Lia.
From Stdlib.Strings Require Import Byte.
From Stdlib Require Import Permutation Sorted.
From Stdlib Require Import Decimal DecimalString DecimalFacts DecimalPos DecimalN DecimalZ.
From Stdlib Require OrdersEx.
Import ListNotations.

Local Open Scope Z_scope.

(** ** Exceptions *)

Inductive exn : Type :=
| ValueError
| IndexError
| UnicodeEncodeError
| AssertionError.

Inductive result (A : Type) : Type :=
| Ok (a : A)
| Raise (e : exn).

Arguments Ok {A} a.
Arguments Raise {A} e.

Definition bind {A B : Type} (r : result A) (k : A -> result B) : result B :=
  match r with
  | Ok a => k a
  | Raise e => Raise e
  end.

Declare Scope py_scope.
Delimit Scope py_scope with py.
Notation "x <- c1 ;; c2" := (bind c1 (fun x => c2))
  (at level 61, c1 at next level, right associativity) : py_scope.
Notation "' pat <- c1 ;; c2" := (bind c1 (fun x => match x with pat => c2 end))
  (at level 61, pat pattern, c1 at next level, right associativity) : py_scope.
Local Open Scope py_scope.

Definition raises {A : Type} (r : result A) : bool :=
  match r with
  | Ok _ => false
  | Raise _ => true
  end.

(** [[f(x) for x in l]], evaluated left to right; the first exception wins. *)
Fixpoint mapM {A B : Type} (f : A -> result B) (l : list A) : result (list B) :=
  match l with
  | [] => Ok []
  | x :: r => y <- f x ;; ys <- mapM f r ;; Ok (y :: ys)
  end.

(** ** The Python built-ins used by the scripts

    Integers are unbounded; the cap that recent interpreters put on the
    number of digits of a conversion between [int] and [str] (4300 by
    default) is far above the 14 digits of the longest field and is not
    modelled. *)

Module Py.

(** [str(z)] for an integer. *)
Definition str (z : Z) : string := NilEmpty.string_of_int (Z.to_int z).

(** [c.isspace()] on an ASCII character: TAB, LF, VT, FF, CR, the four
    separators 0x1c..0x1f and the blank. *)
Definition isspace (c : ascii) : bool :=
  let n := N_of_ascii c in
  ((9 <=? n) && (n <=? 13) || (28 <=? n) && (n <=? 32))%N.

Definition isdigit (c : ascii) : bool :=
  let n := N_of_ascii c in ((48 <=? n) && (n <=? 57))%N.

Fixpoint mem (c : ascii) (chars : string) : bool :=
  match chars with
  | EmptyString => false
  | String c' r => Ascii.eqb c c' || mem c r
  end.

(** [s.lstrip(chars)] and [s.rstrip(chars)], parameterised by the
    membership test of the stripped set. *)
Fixpoint lstrip_by (p : ascii -> bool) (s : string) : string :=
  match s with
  | EmptyString => EmptyString
  | String c r => if p c then lstrip_by p r else s
  end.

Fixpoint rstrip_by (p : ascii -> bool) (s : string) : string :=
  match s with
  | EmptyString => EmptyString
  | String c r =>
      match rstrip_by p r with
      | EmptyString => if p c then EmptyString else String c EmptyString
      | r' => String c r'
      end
  end.

Definition lstrip (chars : string) (s : string) : string :=
  lstrip_by (fun c => mem c chars) s.

(** [s.rstrip()] without argument strips white space. *)
Definition rstrip (s : string) : string := rstrip_by isspace s.

(** [x or y] on strings: the empty string is falsy. *)
Definition or (x y : string) : string :=
  match x with
  | EmptyString => y
  | _ => x
  end.

(** [c * n]. *)
Fixpoint replicate (n : nat) (c : ascii) : string :=
  match n with
  | O => EmptyString
  | S n' => String c (replicate n' c)
  end.

(** [s.rjust(width, fill)] and [s.ljust(width, fill)]; a string already
    as long as [width] (or a non-positive [width]) is returned as is. *)
Definition rjust (s : string) (width : Z) (fill : ascii) : string :=
  replicate (Z.to_nat width - String.length s) fill ++ s.

Definition ljust (s : string) (width : Z) (fill : ascii) : string :=
  s ++ replicate (Z.to_nat width - String.length s) fill.

(** ["".join(l)]. *)
Definition join (l : list string) : string := String.concat EmptyString l.

(** The digit part accepted by [int(str)]: decimal digits, with single
    underscores allowed between two digits.  Returns the digits alone. *)
Fixpoint int_digits (s : string) : option string :=
  match s with
  | EmptyString => None
  | String c r =>
      if isdigit c then
        match r with
        | EmptyString => Some (String c EmptyString)
        | String u r' =>
            option_map (String c)
              (if Ascii.eqb u "_" then int_digits r' else int_digits r)
        end
      else None
  end.

(** The white space that [int(s)] skips around the number of an ASCII
    string: TAB, LF, VT, FF, CR and the blank.  The four separators
    0x1c..0x1f, which [rstrip] removes, are not skipped: [int] rejects
    them like any other character that is not a digit. *)
Definition int_space (c : ascii) : bool :=
  let n := N_of_ascii c in
  ((9 <=? n) && (n <=? 13) || (n =? 32))%N.

Definition int_strip (s : string) : string :=
  lstrip_by int_space (rstrip_by int_space s).

(** [int(s)] on an ASCII string (the scripts call it on decoded ASCII
    only): the white space around the number is dropped, one sign is
    accepted, anything else than digits raises [ValueError]. *)
Definition int (s : string) : result Z :=
  let t := int_strip s in
  let '(neg, body) :=
    match t with
    | String c r =>
        if Ascii.eqb c "-" then (true, r)
        else if Ascii.eqb c "+" then (false, r)
        else (false, t)
    | EmptyString => (false, t)
    end in
  match int_digits body with
  | Some ds =>
      match NilEmpty.uint_of_string ds with
      | Some d => Ok (if neg then - Z.of_uint d else Z.of_uint d)
      | None => Raise ValueError
      end
  | None => Raise ValueError
  end.

(** [l.pop()]: the last element, [IndexError] on the empty list. *)
Definition pop {A : Type} (l : list A) : result (list A * A) :=
  match List.rev l with
  | [] => Raise IndexError
  | x :: r => Ok (List.rev r, x)
  end.

(** The value check of [bytearray.append]: only [range(256)] is stored. *)
Definition byte_of_int (x : Z) : result byte :=
  if (0 <=? x) && (x <? 256) then
    match Byte.of_N (Z.to_N x) with
    | Some b => Ok b
    | None => Raise ValueError
    end
  else Raise ValueError.

Definition int_of_byte (b : byte) : Z := Z.of_N (Byte.to_N b).

End Py.

(** ** COMP-3 helpers (modern_runner.py, lines 27-50) *)

(** The loop of [unpack_comp3] that splits each byte in two nibbles. *)
Definition nibbles_of_bytes (b : list byte) : list Z :=
  flat_map (fun byte =>
              let x := Py.int_of_byte byte in
              [Z.land (Z.shiftr x 4) 15; Z.land x 15]) b.

Definition unpack_comp3 (b : list byte) : result Z :=
  let nibbles := nibbles_of_bytes b in
  '(nibbles, sign) <- Py.pop nibbles ;;
  let neg := sign =? 13 in
  let digits := Py.or (Py.lstrip "0" (Py.join (map Py.str nibbles))) "0" in
  val <- Py.int digits ;;
  Ok (if neg then - val else val).

(** The loop [for i in range(0, len(nibbles), 2)] of [pack_comp3_fixed];
    [nibbles[i+1]] raises [IndexError] past the end of the list. *)
Fixpoint pack_pairs (nibbles : list Z) : result (list byte) :=
  match nibbles with
  | [] => Ok []
  | hi :: rest =>
      match rest with
      | [] => Raise IndexError
      | lo :: rest' =>
          b <- Py.byte_of_int (Z.lor (Z.shiftl hi 4) (Z.land lo 15)) ;;
          out <- pack_pairs rest' ;;
          Ok (b :: out)
      end
  end.

Definition pack_comp3_fixed (value_cents total_digits : Z) : result (list byte) :=
  let neg := value_cents <? 0 in
  let s := Py.rjust (Py.str (Z.abs value_cents)) total_digits "0" in
  nibbles <- mapM (fun d => Py.int (String d EmptyString)) (list_ascii_of_string s) ;;
  let nibbles := nibbles ++ [if neg then 13 else 12] in
  let nibbles :=
    if Z.of_nat (List.length nibbles) mod 2 =? 1 then 0 :: nibbles else nibbles in
  pack_pairs nibbles.

(** ** Fixed layout constants (lines 21-24) *)

Definition ACCT_REC_LEN : Z := 58.
Definition TXN_REC_LEN : Z := 72.

Definition TODAY : Z := 20250101.

(** ** The dictionaries of [read_accounts] and [read_txns]

    One record per dictionary; the field names are the keys. *)

Module Account.
Record t : Type := mk {
  ACCT_ID : string;
  CUST_ID : string;
  PRODUCT : string;
  STATUS : string;
  CURR_BAL : Z;
  OD_LIMIT : Z;
  OPEN_DATE : Z;
  CLOSE_DATE : Z
}.

(** [a['CURR_BAL'] = v] *)
Definition set_CURR_BAL (a : t) (v : Z) : t :=
  mk (ACCT_ID a) (CUST_ID a) (PRODUCT a) (STATUS a) v
     (OD_LIMIT a) (OPEN_DATE a) (CLOSE_DATE a).
End Account.

Module Txn.
Record t : Type := mk {
  ACCT_ID : string;
  TXN_ID : string;
  ORIG_ID : string;
  CODE : string;
  AMOUNT : Z;
  TS : Z;
  CHANNEL : string;
  RAW : list byte
}.
End Txn.

(** ** Record codec (lines 73-91 and 111-125) *)

Definition is_ascii_byte (b : byte) : bool := (Byte.to_N b <? 128)%N.

(** [b.decode('ascii', 'ignore')]: bytes above 0x7f are dropped. *)
Definition decode_ascii_ignore (b : list byte) : string :=
  string_of_list_byte (filter is_ascii_byte b).

(** [s.encode('ascii')]. *)
Definition encode_ascii (s : string) : result (list byte) :=
  if forallb is_ascii_byte (list_byte_of_string s)
  then Ok (list_byte_of_string s)
  else Raise UnicodeEncodeError.

(** [rec[i:j]] for [0 <= i <= j]. *)
Definition slice (b : list byte) (i j : nat) : list byte :=
  firstn (j - i) (skipn i b).

(** [b[:n].ljust(n, b' ')]. *)
Definition fit (b : list byte) (n : nat) : list byte :=
  let b := firstn n b in
  b ++ repeat x20%byte (n - List.length b).

(** [f"{z:0wd}"]: zero padding goes between the sign and the digits. *)
Definition format_0d (z : Z) (w : Z) : string :=
  if z <? 0 then String "-" (Py.rjust (Py.str (- z)) (w - 1) "0")
  else Py.rjust (Py.str z) w "0".

(** The body of the loop of [read_txns], on one chunk [rec] of
    [TXN_REC_LEN] bytes. *)
Definition read_txn (rec : list byte) : result Txn.t :=
  amount <- unpack_comp3 (slice rec 48 54) ;;
  ts <- Py.int (Py.or (decode_ascii_ignore (slice rec 54 68)) "0") ;;
  Ok {| Txn.ACCT_ID := Py.rstrip (decode_ascii_ignore (slice rec 0 12));
        Txn.TXN_ID := Py.rstrip (decode_ascii_ignore (slice rec 12 28));
        Txn.ORIG_ID := Py.rstrip (decode_ascii_ignore (slice rec 28 44));
        Txn.CODE := decode_ascii_ignore (slice rec 44 48);
        Txn.AMOUNT := amount;
        Txn.TS := ts;
        Txn.CHANNEL := decode_ascii_ignore (slice rec 68 72);
        Txn.RAW := rec |}.

(** [read_txns] on the content [file] of the transactions file: chunks of
    [TXN_REC_LEN] bytes until a short read.  Every round takes 72 bytes
    off the file, so the length of the file bounds the number of rounds. *)
Fixpoint read_txns_loop (rounds : nat) (file : list byte) : result (list Txn.t) :=
  match rounds with
  | O => Ok []
  | S rounds' =>
      let rec := firstn 72 file in
      if Z.of_nat (List.length rec) <? TXN_REC_LEN then Ok []
      else
        t <- read_txn rec ;;
        txns <- read_txns_loop rounds' (skipn 72 file) ;;
        Ok (t :: txns)
  end.

Definition read_txns (file : list byte) : result (list Txn.t) :=
  read_txns_loop (List.length file) file.

(** The body of the loop of [write_exceptions]: the record written for
    one rejected transaction. *)
Definition exception_record (t : Txn.t) : result (list byte) :=
  acct <- encode_ascii (Txn.ACCT_ID t) ;;
  txn <- encode_ascii (Txn.TXN_ID t) ;;
  orig <- encode_ascii (Txn.ORIG_ID t) ;;
  code <- encode_ascii (Txn.CODE t) ;;
  amount <- pack_comp3_fixed (Txn.AMOUNT t) 11 ;;
  ts <- encode_ascii (format_0d (Txn.TS t) 14) ;;
  channel <- encode_ascii (Txn.CHANNEL t) ;;
  let out := fit acct 12 ++ fit txn 16 ++ fit orig 16 ++ fit code 4
             ++ amount ++ ts ++ fit channel 4 in
  if Z.of_nat (List.length out) =? TXN_REC_LEN then Ok out
  else Raise AssertionError.

(** The bytes [write_exceptions] puts in the exceptions file. *)
Fixpoint write_exceptions (exceptions : list Txn.t) : result (list byte) :=
  match exceptions with
  | [] => Ok []
  | t :: rest =>
      out <- exception_record t ;;
      more <- write_exceptions rest ;;
      Ok (out ++ more)
  end.

(** ** Core posting logic (lines 128-162)

    [read_accounts] builds one dictionary per record, so the entries of
    the account list are distinct objects: the update in place of the
    current account [a] is the replacement of that entry by the updated
    record, and [sorted] hands the same entries on in another order. *)

Definition yyyymmdd_from_ts (ts : Z) : Z := ts / 1000000.

(** [sorted(l, key=key)]: Python's sort is stable and compares keys with
    [<] only.  The stable insertion sort below returns the same list as
    any stable sort. *)
Section Sorted.
Context {A K : Type} (lt : K -> K -> bool) (key : A -> K).

Fixpoint insert (x : A) (l : list A) : list A :=
  match l with
  | [] => [x]
  | y :: r => if lt (key y) (key x) then y :: insert x r else x :: l
  end.

Fixpoint sorted (l : list A) : list A :=
  match l with
  | [] => []
  | x :: r => insert x (sorted r)
  end.
End Sorted.

(** [<] on the tuples [(ACCT_ID, TS, TXN_ID)]: the first component that
    differs decides. *)
Definition key_lt (k1 k2 : string * Z * string) : bool :=
  let '(a1, ts1, id1) := k1 in
  let '(a2, ts2, id2) := k2 in
  if negb (a1 =? a2)%string then (a1 <? a2)%string
  else if negb (ts1 =? ts2) then ts1 <? ts2
  else (id1 <? id2)%string.

Definition txn_key (t : Txn.t) : string * Z * string :=
  (Txn.ACCT_ID t, Txn.TS t, Txn.TXN_ID t).

(** Lines 143-161: what the inner loop does with one transaction [t] of
    the current account [a]; [exc] is the exception list so far. *)
Definition post_txn (st : Account.t * list Txn.t) (t : Txn.t)
  : Account.t * list Txn.t :=
  let '(a, exc) := st in
  if yyyymmdd_from_ts (Txn.TS t) =? TODAY then
    let code := Txn.CODE t in
    if ((code =? "DEPO") || (code =? "FEE ") || (code =? "INT "))%string then
      (Account.set_CURR_BAL a (Account.CURR_BAL a + Txn.AMOUNT t), exc)
    else if (code =? "REV ")%string then
      (Account.set_CURR_BAL a (Account.CURR_BAL a - Txn.AMOUNT t), exc)
    else if (code =? "WDRW")%string then
      let new_bal := Account.CURR_BAL a - Txn.AMOUNT t in
      let neg_limit := 0 - Account.OD_LIMIT a in
      if new_bal >=? neg_limit then (Account.set_CURR_BAL a new_bal, exc)
      else (a, exc ++ [t])
    else (a, exc)
  else (a, exc).

(** The cursor [ti] is kept as the unread part [txns[ti:]] of the sorted
    transaction list. *)

(** Line 140: [while ti < len(txns) and txns[ti]['ACCT_ID'] < a['ACCT_ID']]. *)
Fixpoint skip_lower (a : Account.t) (txns : list Txn.t) : list Txn.t :=
  match txns with
  | [] => []
  | t :: rest =>
      if (Txn.ACCT_ID t <? Account.ACCT_ID a)%string then skip_lower a rest
      else txns
  end.

(** Line 142: [while ti < len(txns) and txns[ti]['ACCT_ID'] == a['ACCT_ID']];
    returns the account, the unread transactions and the exceptions. *)
Fixpoint consume (a : Account.t) (txns exc : list Txn.t)
  : Account.t * list Txn.t * list Txn.t :=
  match txns with
  | [] => (a, [], exc)
  | t :: rest =>
      if (Txn.ACCT_ID t =? Account.ACCT_ID a)%string then
        let '(a', exc') := post_txn (a, exc) t in
        consume a' rest exc'
      else (a, txns, exc)
  end.

(** Line 138: [for a in accounts]. *)
Fixpoint posting_loop (accounts : list Account.t) (txns exc : list Txn.t)
  : list Account.t * list Txn.t :=
  match accounts with
  | [] => ([], exc)
  | a :: rest =>
      let '(a', txns', exc') := consume a (skip_lower a txns) exc in
      let '(rest', exc'') := posting_loop rest txns' exc' in
      (a' :: rest', exc'')
  end.

Definition run_posting (accounts : list Account.t) (txns : list Txn.t)
  : list Account.t * list Txn.t :=
  let accounts := sorted String.ltb Account.ACCT_ID accounts in
  let txns := sorted key_lt txn_key txns in
  posting_loop accounts txns [].

(** * The other functions of the scripts *)

(** ** Account records (modern_runner.py, lines 53-71 and 94-109) *)

(** The body of the loop of [read_accounts], on one chunk [rec] of
    [ACCT_REC_LEN] bytes. *)
Definition read_account (rec : list byte) : result Account.t :=
  curr_bal <- unpack_comp3 (slice rec 29 36) ;;
  od_limit <- unpack_comp3 (slice rec 36 42) ;;
  open_date <- Py.int (Py.or (decode_ascii_ignore (slice rec 42 50)) "0") ;;
  close_date <- Py.int (Py.or (decode_ascii_ignore (slice rec 50 58)) "0") ;;
  Ok {| Account.ACCT_ID := Py.rstrip (decode_ascii_ignore (slice rec 0 12));
        Account.CUST_ID := Py.rstrip (decode_ascii_ignore (slice rec 12 24));
        Account.PRODUCT := decode_ascii_ignore (slice rec 24 28);
        Account.STATUS := decode_ascii_ignore (slice rec 28 29);
        Account.CURR_BAL := curr_bal;
        Account.OD_LIMIT := od_limit;
        Account.OPEN_DATE := open_date;
        Account.CLOSE_DATE := close_date |}.

(** [read_accounts] on the content [file] of the accounts file; the
    rounds are counted as in [read_txns]. *)
Fixpoint read_accounts_loop (rounds : nat) (file : list byte)
  : result (list Account.t) :=
  match rounds with
  | O => Ok []
  | S rounds' =>
      let rec := firstn 58 file in
      if Z.of_nat (List.length rec) <? ACCT_REC_LEN then Ok []
      else
        acc <- read_account rec ;;
        accs <- read_accounts_loop rounds' (skipn 58 file) ;;
        Ok (acc :: accs)
  end.

Definition read_accounts (file : list byte) : result (list Account.t) :=
  read_accounts_loop (List.length file) file.

(** The body of the loop of [write_accounts]: the record written for one
    account. *)
Definition account_record (a : Account.t) : result (list byte) :=
  acct <- encode_ascii (Account.ACCT_ID a) ;;
  cust <- encode_ascii (Account.CUST_ID a) ;;
  product <- encode_ascii (Account.PRODUCT a) ;;
  status <- encode_ascii (Account.STATUS a) ;;
  curr_bal <- pack_comp3_fixed (Account.CURR_BAL a) 13 ;;
  od_limit <- pack_comp3_fixed (Account.OD_LIMIT a) 11 ;;
  open_date <- encode_ascii (format_0d (Account.OPEN_DATE a) 8) ;;
  close_date <- encode_ascii (format_0d (Account.CLOSE_DATE a) 8) ;;
  let out := fit acct 12 ++ fit cust 12 ++ fit product 4 ++ fit status 1
             ++ curr_bal ++ od_limit ++ open_date ++ close_date in
  if Z.of_nat (List.length out) =? ACCT_REC_LEN then Ok out
  else Raise AssertionError.

(** The bytes [write_accounts] puts in the accounts file when its loop
    runs to the end. *)
Fixpoint write_accounts (accs : list Account.t) : result (list byte) :=
  match accs with
  | [] => Ok []
  | a :: rest =>
      out <- account_record a ;;
      more <- write_accounts rest ;;
      Ok (out ++ more)
  end.

(** ** The batch (modern_runner.py, lines 164-192)

    The two input files are given by their content, [None] for a file
    that does not exist; the batch ends on [SystemExit], on an exception
    of one of its steps, or with the content of the two output files. *)
Inductive outcome : Type :=
| SystemExit
| Crashed (e : exn)
| Completed (accounts_out exceptions_out : list byte).

Definition main (acc_in txn_in : option (list byte)) : outcome :=
  match acc_in, txn_in with
  | Some acc_file, Some txn_file =>
      match
        (accs <- read_accounts acc_file ;;
         txns <- read_txns txn_file ;;
         let '(accs_out, exceptions) := run_posting accs txns in
         accounts_out <- write_accounts accs_out ;;
         exceptions_out <- write_exceptions exceptions ;;
         Ok (accounts_out, exceptions_out))
      with
      | Ok (accounts_out, exceptions_out) => Completed accounts_out exceptions_out
      | Raise e => Crashed e
      end
  | _, _ => SystemExit
  end.

(** ** decode_comp3.py, lines 3-11 *)

Module DecodeComp3.
Definition unpack_comp3 (b : list byte) : result Z :=
  let nibbles := nibbles_of_bytes b in
  '(nibbles, sign) <- Py.pop nibbles ;;
  let neg := sign =? 13 in
  let digits := Py.or (Py.lstrip "0" (Py.join (map Py.str nibbles))) "0" in
  val <- Py.int digits ;;
  Ok ((if neg then -1 else 1) * val).
End DecodeComp3.

(** ** decode_accounts.py

    Its [unpack_comp3] (lines 6-16) is, statement for statement, the one
    of modern_runner.py, and the definition above stands for both. *)

Module DecodeAccounts.
Definition REC_LEN : Z := 58.

(** Lines 18-21. *)
Definition cents_to_str (n : Z) : string :=
  let sign := if n <? 0 then "-"%string else ""%string in
  let n := Z.abs n in
  (sign ++ Py.str (n / 100) ++ "." ++ format_0d (n mod 100) 2)%string.

(** The dictionary appended for one record (lines 41-52). *)
Record row : Type := mk_row {
  ACCT_ID : string;
  CUST_ID : string;
  PRODUCT : string;
  STATUS : string;
  CURR_BAL_CENTS : Z;
  CURR_BAL : string;
  OD_LIMIT_CENTS : Z;
  OD_LIMIT : string;
  OPEN_DATE : string;
  CLOSE_DATE : string
}.

(** The body of the loop of [decode_accounts], on one chunk of [REC_LEN]
    bytes. *)
Definition decode_record (chunk : list byte) : result row :=
  curr_bal <- unpack_comp3 (slice chunk 29 36) ;;
  od_lim <- unpack_comp3 (slice chunk 36 42) ;;
  Ok {| ACCT_ID := Py.rstrip (decode_ascii_ignore (slice chunk 0 12));
        CUST_ID := Py.rstrip (decode_ascii_ignore (slice chunk 12 24));
        PRODUCT := decode_ascii_ignore (slice chunk 24 28);
        STATUS := decode_ascii_ignore (slice chunk 28 29);
        CURR_BAL_CENTS := curr_bal;
        CURR_BAL := cents_to_str curr_bal;
        OD_LIMIT_CENTS := od_lim;
        OD_LIMIT := cents_to_str od_lim;
        OPEN_DATE := decode_ascii_ignore (slice chunk 42 50);
        CLOSE_DATE := decode_ascii_ignore (slice chunk 50 58) |}.

(** [decode_accounts] on the content of its input file (lines 23-53). *)
Fixpoint decode_accounts_loop (rounds : nat) (file : list byte)
  : result (list row) :=
  match rounds with
  | O => Ok []
  | S rounds' =>
      let chunk := firstn 58 file in
      if Z.of_nat (List.length chunk) <? REC_LEN then Ok []
      else
        r <- decode_record chunk ;;
        records <- decode_accounts_loop rounds' (skipn 58 file) ;;
        Ok (r :: records)
  end.

Definition decode_accounts (file : list byte) : result (list row) :=
  decode_accounts_loop (List.length file) file.
End DecodeAccounts.

(** * Vocabulary of the properties *)

(** The digits of a decimal number, most significant first, as nibbles. *)
Fixpoint uint_vals (d : uint) : list Z :=
  match d with
  | Nil => []
  | D0 d => 0 :: uint_vals d
  | D1 d => 1 :: uint_vals d
  | D2 d => 2 :: uint_vals d
  | D3 d => 3 :: uint_vals d
  | D4 d => 4 :: uint_vals d
  | D5 d => 5 :: uint_vals d
  | D6 d => 6 :: uint_vals d
  | D7 d => 7 :: uint_vals d
  | D8 d => 8 :: uint_vals d
  | D9 d => 9 :: uint_vals d
  end.

(** The values of four bits. *)
Definition is_nibble (x : Z) : Prop := 0 <= x < 16.

(** The sixteen nibbles, and the check that a pair of them survives
    packing into a byte and splitting it again. *)
Definition nibble_range : list Z := [0;1;2;3;4;5;6;7;8;9;10;11;12;13;14;15].

Definition pair_ok (hi lo : Z) : bool :=
  match Py.byte_of_int (Z.lor (Z.shiftl hi 4) (Z.land lo 15)) with
  | Ok b =>
      (Z.land (Z.shiftr (Py.int_of_byte b) 4) 15 =? hi)
      && (Z.land (Py.int_of_byte b) 15 =? lo)
  | Raise _ => false
  end.

(** The sign nibble [pack_comp3_fixed] appends: 0xD below zero, else 0xC. *)
Definition sign_nibble (v : Z) : Z := if v <? 0 then 13 else 12.

(** The digit string packed for [v] at width [D]: the decimal digits of
    [|v|] behind [D - len] zeros. *)
Definition packed_digits (v D : Z) : uint :=
  let d := N.to_uint (Z.to_N (Z.abs v)) in
  Nat.iter (Z.to_nat D - nb_digits d) D0 d.

(** The nibble list before packing, including the pad nibble. *)
Definition packed_nibbles (v D : Z) : list Z :=
  let l := uint_vals (packed_digits v D) ++ [sign_nibble v] in
  if Z.of_nat (List.length l) mod 2 =? 1 then 0 :: l else l.

(** The number of decimal digits of the magnitude of [z]. *)
Definition ndigits (z : Z) : nat := nb_digits (N.to_uint (Z.to_N (Z.abs z))).

(** [x] may stand before [y]: the key of [y] is not below the key of [x]. *)
Definition key_le {A K : Type} (lt : K -> K -> bool) (key : A -> K) (x y : A)
  : Prop :=
  lt (key y) (key x) = false.

(** Everything of an account but its balance. *)
Definition frame (a : Account.t) : string * string * string * string * Z * Z * Z :=
  (Account.ACCT_ID a, Account.CUST_ID a, Account.PRODUCT a, Account.STATUS a,
   Account.OD_LIMIT a, Account.OPEN_DATE a, Account.CLOSE_DATE a).

(** The inner loop body run over the transactions [l], in list order. *)
Definition post_all (st : Account.t * list Txn.t) (l : list Txn.t)
  : Account.t * list Txn.t :=
  fold_left post_txn l st.

(** The account after the transactions [l], applied in list order. *)
Definition posted (a : Account.t) (l : list Txn.t) : Account.t :=
  fst (post_all (a, []) l).

(** The transactions of [l] that the withdrawal guard refuses on the way. *)
Definition rejected (a : Account.t) (l : list Txn.t) : list Txn.t :=
  snd (post_all (a, []) l).

(** The date filter of line 145. *)
Definition on_today (t : Txn.t) : bool := yyyymmdd_from_ts (Txn.TS t) =? TODAY.

(** The codes the dispatch of lines 147-151 knows. *)
Definition known_code (t : Txn.t) : bool :=
  let code := Txn.CODE t in
  ((code =? "DEPO") || (code =? "FEE ") || (code =? "INT ")
   || (code =? "REV ") || (code =? "WDRW"))%string.

(** What a posting without guard adds to the balance: the amount of a
    deposit, a fee or an interest of the as-of date, the negated amount of
    a reversal of that date, nothing for any other transaction. *)
Definition unguarded_amount (t : Txn.t) : Z :=
  let code := Txn.CODE t in
  if on_today t then
    if ((code =? "DEPO") || (code =? "FEE ") || (code =? "INT "))%string
    then Txn.AMOUNT t
    else if (code =? "REV ")%string then - Txn.AMOUNT t
    else 0
  else 0.

(** [t] may stand before [u] in account order. *)
Definition acct_le (t u : Txn.t) : Prop :=
  (Txn.ACCT_ID u <? Txn.ACCT_ID t)%string = false.

(** Where the account id of a transaction stands with respect to [id]. *)
Definition same (id : string) (t : Txn.t) : bool := (Txn.ACCT_ID t =? id)%string.

Definition above (id : string) (t : Txn.t) : bool := (id <? Txn.ACCT_ID t)%string.

Definition below (id : string) (t : Txn.t) : bool := (Txn.ACCT_ID t <? id)%string.

Definition not_below (id : string) (t : Txn.t) : bool :=
  negb (Txn.ACCT_ID t <? id)%string.

(** The two sorted lists of line 133 and line 134. *)
Definition sorted_accounts (accs : list Account.t) : list Account.t :=
  sorted String.ltb Account.ACCT_ID accs.

Definition sorted_txns (txns : list Txn.t) : list Txn.t :=
  sorted key_lt txn_key txns.

(** The transactions of account [id], in the order the engine meets them. *)
Definition applied (id : string) (txns : list Txn.t) : list Txn.t :=
  filter (same id) (sorted_txns txns).

(** What ends up in the exception list: withdrawals of today that the
    guard refused, and nothing else. *)
Definition refused (t : Txn.t) : Prop :=
  on_today t = true /\ Txn.CODE t = "WDRW"%string.

(** Account order on the sorted account list. *)
Definition acc_le : Account.t -> Account.t -> Prop :=
  key_le String.ltb Account.ACCT_ID.

(** The transactions still ahead of the cursor once the accounts with
    the ids [seen] are done: those above every one of these ids. *)
Definition beyond (seen : list string) (t : Txn.t) : bool :=
  forallb (fun s => (s <? Txn.ACCT_ID t)%string) seen.

(** The accounts of a run, one by one: an account whose id was not met
    before gets the transactions [ts] of its id applied in list order;
    an account that repeats an earlier id finds the cursor past them and
    is left as it is. *)
Fixpoint post_each (seen : list string) (accs : list Account.t) (ts : list Txn.t)
  : list Account.t :=
  match accs with
  | [] => []
  | a :: rest =>
      (if existsb (String.eqb (Account.ACCT_ID a)) seen then a
       else posted a (filter (same (Account.ACCT_ID a)) ts))
      :: post_each (Account.ACCT_ID a :: seen) rest ts
  end.

(** The balance is at or above the negated limit. *)
Definition within_limit (a : Account.t) : Prop :=
  - Account.OD_LIMIT a <= Account.CURR_BAL a.

(** The accounts of scenarios A and B, and a transaction on the ATM
    channel without origin and without raw bytes. *)
Definition acct_A001 : Account.t :=
  Account.mk "A001" "C001" "CHK " "A" 10000 5000 20200101 0.

Definition acct_A002 : Account.t :=
  Account.mk "A002" "C002" "SAV " "A" 1000 0 20200101 0.

Definition txn (acct id code : string) (amount ts : Z) : Txn.t :=
  Txn.mk acct id "" code amount ts "ATM " [].

(** The order of two transactions of one account: earlier timestamp
    first, equal timestamps by ascending transaction id. *)
Definition ts_id_le (t u : Txn.t) : Prop :=
  Txn.TS t < Txn.TS u
  \/ (Txn.TS t = Txn.TS u /\ (Txn.TXN_ID t <=? Txn.TXN_ID u)%string = true).

(** The transaction record of scenario A: a withdrawal of 200.00 on
    account A001 on the as-of date; [sign] is the last byte of the packed
    amount, whose low nibble is the sign. *)
Definition scenario_A_record (sign : byte) : list byte :=
  list_byte_of_string "A001        T000000000000001                WDRW"
  ++ [x00; x00; x00; x20; x00; sign]%byte
  ++ list_byte_of_string "20250101120000ATM ".

(** [l] is [l'] with some elements left out, the others in place. *)
Inductive subseq {X : Type} : list X -> list X -> Prop :=
| subseq_nil : subseq [] []
| subseq_skip x l l' : subseq l l' -> subseq l (x :: l')
| subseq_keep x l l' : subseq l l' -> subseq (x :: l) (x :: l').

(** A string that [encode('ascii')] accepts. *)
Definition ascii_text (s : string) : bool :=
  forallb is_ascii_byte (list_byte_of_string s).

(** A value whose magnitude has at most [D] decimal digits. *)
Definition fits_digits (v D : Z) : bool := Z.abs v <? 10 ^ D.

(** A number that [f"{z:0wd}"] prints in exactly [w] characters. *)
Definition fits_width (z w : Z) : bool :=
  (- 10 ^ (w - 1) <? z) && (z <? 10 ^ w).

(** The accounts and the transactions whose fields fit their record. *)
Definition account_fits (a : Account.t) : bool :=
  ascii_text (Account.ACCT_ID a) && ascii_text (Account.CUST_ID a)
  && ascii_text (Account.PRODUCT a) && ascii_text (Account.STATUS a)
  && fits_digits (Account.CURR_BAL a) 13 && fits_digits (Account.OD_LIMIT a) 11
  && fits_width (Account.OPEN_DATE a) 8 && fits_width (Account.CLOSE_DATE a) 8.

Definition txn_fits (t : Txn.t) : bool :=
  ascii_text (Txn.ACCT_ID t) && ascii_text (Txn.TXN_ID t)
  && ascii_text (Txn.ORIG_ID t) && ascii_text (Txn.CODE t)
  && fits_digits (Txn.AMOUNT t) 11 && fits_width (Txn.TS t) 14
  && ascii_text (Txn.CHANNEL t).

(** A text that a field of [n] bytes with trailing blanks removed gives
    back: at most [n] characters and nothing to strip; and a text that
    fills a field of [n] bytes read as it is. *)
Definition stripped_text (s : string) (n : nat) : bool :=
  ascii_text s && (String.length s <=? n)%nat && (Py.rstrip s =? s)%string.

Definition exact_text (s : string) (n : nat) : bool :=
  ascii_text s && (String.length s =? n)%nat.

(** The accounts and the transactions that are read back from their
    record as they are. *)
Definition account_canonical (a : Account.t) : bool :=
  stripped_text (Account.ACCT_ID a) 12 && stripped_text (Account.CUST_ID a) 12
  && exact_text (Account.PRODUCT a) 4 && exact_text (Account.STATUS a) 1
  && fits_digits (Account.CURR_BAL a) 13 && fits_digits (Account.OD_LIMIT a) 11
  && fits_width (Account.OPEN_DATE a) 8 && fits_width (Account.CLOSE_DATE a) 8.

Definition txn_canonical (t : Txn.t) : bool :=
  stripped_text (Txn.ACCT_ID t) 12 && stripped_text (Txn.TXN_ID t) 16
  && stripped_text (Txn.ORIG_ID t) 16 && exact_text (Txn.CODE t) 4
  && fits_digits (Txn.AMOUNT t) 11 && fits_width (Txn.TS t) 14
  && exact_text (Txn.CHANNEL t) 4.

(** [t] with the raw bytes [raw]. *)
Definition with_RAW (t : Txn.t) (raw : list byte) : Txn.t :=
  Txn.mk (Txn.ACCT_ID t) (Txn.TXN_ID t) (Txn.ORIG_ID t) (Txn.CODE t)
         (Txn.AMOUNT t) (Txn.TS t) (Txn.CHANNEL t) raw.

(** What the two readers make of one record. *)
Definition row_of_account (a : Account.t) (r : DecodeAccounts.row) : Prop :=
  DecodeAccounts.ACCT_ID r = Account.ACCT_ID a
  /\ DecodeAccounts.CUST_ID r = Account.CUST_ID a
  /\ DecodeAccounts.PRODUCT r = Account.PRODUCT a
  /\ DecodeAccounts.STATUS r = Account.STATUS a
  /\ DecodeAccounts.CURR_BAL_CENTS r = Account.CURR_BAL a
  /\ DecodeAccounts.OD_LIMIT_CENTS r = Account.OD_LIMIT a
  /\ DecodeAccounts.CURR_BAL r = DecodeAccounts.cents_to_str (Account.CURR_BAL a)
  /\ DecodeAccounts.OD_LIMIT r = DecodeAccounts.cents_to_str (Account.OD_LIMIT a).

(** The accounts file of scenario A: the one record of [acct_A001]. *)
Definition scenario_A_accounts : list byte :=
  list_byte_of_string "A001        C001        CHK A"
  ++ [x00; x00; x00; x00; x10; x00; x0c]%byte
  ++ [x00; x00; x00; x05; x00; x0c]%byte
  ++ list_byte_of_string "2020010100000000".

Definition unguarded_total (l : list Txn.t) : Z :=
  fold_right (fun t s => unguarded_amount t + s) 0 l.

(** A withdrawal of the as-of date. *)
Definition withdrawal_today (t : Txn.t) : bool :=
  on_today t && (Txn.CODE t =? "WDRW")%string.

(** On failure the outcome is [ValueError]. *)
Definition only_ValueError {X : Type} (r : result X) : Prop :=
  match r with
  | Ok _ => True
  | Raise e => e = ValueError
  end.

(** * Properties *)

Example unpack_example :
  unpack_comp3 [x00; x00; x00; x01; x23; x4d]%byte = Ok (-1234).
Proof. vm_compute. reflexivity. Qed.

Example pack_example :
  pack_comp3_fixed (-1234) 11 = Ok [x00; x00; x00; x01; x23; x4d]%byte.
Proof. vm_compute. reflexivity. Qed.

(** [int] takes blanks around the number, a sign and leading zeros; it
    rejects a blank field, and a separator 0x1c beside the digits. *)
Example int_examples :
  Py.int " 20250101 " = Ok 20250101
  /\ Py.int "-0000005" = Ok (-5)
  /\ Py.int "        " = Raise ValueError
  /\ Py.int (String (ascii_of_nat 28) "0000000") = Raise ValueError
  /\ Py.int ("0000000" ++ String (ascii_of_nat 28) "") = Raise ValueError
  /\ Py.rstrip ("A001" ++ String (ascii_of_nat 28) " ") = "A001"%string.
Proof. vm_compute. repeat split. Qed.

(** ** Digit strings

    Every string the codec hands to [int] or gets from [str] is the
    rendering of a [Decimal.uint]; the Python string operations are read
    back on that representation. *)

Section DigitStrings.

Local Open Scope string_scope.

Lemma uint_vals_nibbles d : Forall is_nibble (uint_vals d).
Proof.
  induction d; simpl; constructor; auto; unfold is_nibble; lia.
Qed.

Lemma uint_vals_length d : List.length (uint_vals d) = nb_digits d.
Proof. induction d; simpl; congruence. Qed.

Lemma str_nonneg z :
  0 <= z -> Py.str z = NilEmpty.string_of_uint (N.to_uint (Z.to_N z)).
Proof.
  intros Hz. destruct z as [|p|p]; try reflexivity. lia.
Qed.

Lemma N_to_uint_nonnil n : N.to_uint n <> Nil.
Proof.
  destruct n as [|p]; simpl.
  - discriminate.
  - apply DecimalPos.Unsigned.to_uint_nonnil.
Qed.

Lemma unorm_to_uint n : unorm (N.to_uint n) = N.to_uint n.
Proof.
  pose proof (DecimalN.Unsigned.to_of (N.to_uint n)) as H.
  rewrite DecimalN.Unsigned.of_to in H. now symmetry.
Qed.

Lemma string_of_uint_length d :
  String.length (NilEmpty.string_of_uint d) = nb_digits d.
Proof. induction d; simpl; congruence. Qed.

Lemma mapM_int_chars d :
  mapM (fun c => Py.int (String c EmptyString))
       (list_ascii_of_string (NilEmpty.string_of_uint d)) = Ok (uint_vals d).
Proof.
  induction d;
    cbn [NilEmpty.string_of_uint list_ascii_of_string mapM uint_vals];
    try reflexivity; rewrite IHd; reflexivity.
Qed.

Lemma join_cons x l : Py.join (x :: l) = x ++ Py.join l.
Proof.
  unfold Py.join. destruct l as [|y l]; simpl.
  - clear. induction x; simpl; congruence.
  - reflexivity.
Qed.

Lemma join_str_vals d :
  Py.join (map Py.str (uint_vals d)) = NilEmpty.string_of_uint d.
Proof.
  induction d; cbn [uint_vals map NilEmpty.string_of_uint];
    try reflexivity; rewrite join_cons, IHd; reflexivity.
Qed.

Lemma lstrip_zero d :
  Py.lstrip "0" (NilEmpty.string_of_uint d) = NilEmpty.string_of_uint (nzhead d).
Proof.
  induction d; try reflexivity.
  cbn [nzhead NilEmpty.string_of_uint]. rewrite <- IHd. reflexivity.
Qed.

Lemma lstrip_zero_or d :
  Py.or (Py.lstrip "0" (NilEmpty.string_of_uint d)) "0"
  = NilEmpty.string_of_uint (unorm d).
Proof.
  rewrite lstrip_zero. unfold unorm.
  destruct (nzhead d); reflexivity.
Qed.

Lemma rjust_zero d w :
  exists k, Py.rjust (NilEmpty.string_of_uint d) w "0"
            = NilEmpty.string_of_uint (Nat.iter k D0 d)
            /\ k = (Z.to_nat w - nb_digits d)%nat.
Proof.
  unfold Py.rjust. rewrite string_of_uint_length.
  exists (Z.to_nat w - nb_digits d)%nat. split; [|reflexivity].
  induction (Z.to_nat w - nb_digits d)%nat as [|k IH]; simpl.
  - reflexivity.
  - now rewrite IH.
Qed.

(** [int] on a non-empty digit string: no blank to strip, no sign. *)

Lemma rstrip_digits d :
  Py.rstrip_by Py.int_space (NilEmpty.string_of_uint d) = NilEmpty.string_of_uint d.
Proof.
  induction d; cbn [NilEmpty.string_of_uint Py.rstrip_by]; try reflexivity;
    rewrite IHd; destruct d; reflexivity.
Qed.

Lemma int_digits_uint d :
  d <> Nil ->
  Py.int_digits (NilEmpty.string_of_uint d) = Some (NilEmpty.string_of_uint d).
Proof.
  induction d; intros Hd; try congruence;
    cbn [NilEmpty.string_of_uint Py.int_digits];
    (destruct d;
     [ reflexivity
     | cbn [NilEmpty.string_of_uint] in *;
       match goal with
       | |- context [Ascii.eqb ?a ?b] =>
           change (Ascii.eqb a b) with false
       end;
       cbv iota; rewrite IHd by discriminate; reflexivity .. ]).
Qed.

Lemma int_uint d :
  d <> Nil -> Py.int (NilEmpty.string_of_uint d) = Ok (Z.of_uint d).
Proof.
  intros Hd. unfold Py.int, Py.int_strip. rewrite rstrip_digits.
  assert (Hhead :
    Py.lstrip_by Py.int_space (NilEmpty.string_of_uint d) = NilEmpty.string_of_uint d
    /\ match NilEmpty.string_of_uint d with
       | String c r =>
           if Ascii.eqb c "-" then (true, r)
           else if Ascii.eqb c "+" then (false, r)
           else (false, NilEmpty.string_of_uint d)
       | EmptyString => (false, NilEmpty.string_of_uint d)
       end = (false, NilEmpty.string_of_uint d)).
  { destruct d; split; reflexivity. }
  destruct Hhead as [-> ->].
  rewrite int_digits_uint by assumption.
  now rewrite NilEmpty.usu.
Qed.

End DigitStrings.

(** ** Nibble pairs and bytes *)

Section NibblePairs.

Lemma pair_ok_all :
  forallb (fun hi => forallb (pair_ok hi) nibble_range) nibble_range = true.
Proof. vm_compute. reflexivity. Qed.

Lemma is_nibble_range x : is_nibble x -> In x nibble_range.
Proof.
  unfold is_nibble, nibble_range. intros H.
  assert (Hx : x = 0 \/ x = 1 \/ x = 2 \/ x = 3 \/ x = 4 \/ x = 5 \/ x = 6
               \/ x = 7 \/ x = 8 \/ x = 9 \/ x = 10 \/ x = 11 \/ x = 12
               \/ x = 13 \/ x = 14 \/ x = 15) by lia.
  simpl. intuition.
Qed.

Lemma pack_one hi lo :
  is_nibble hi -> is_nibble lo ->
  exists b,
    Py.byte_of_int (Z.lor (Z.shiftl hi 4) (Z.land lo 15)) = Ok b
    /\ nibbles_of_bytes [b] = [hi; lo].
Proof.
  intros Hhi Hlo.
  pose proof pair_ok_all as Hall.
  rewrite forallb_forall in Hall.
  specialize (Hall hi (is_nibble_range hi Hhi)).
  rewrite forallb_forall in Hall.
  specialize (Hall lo (is_nibble_range lo Hlo)).
  unfold pair_ok in Hall.
  destruct (Py.byte_of_int _) as [b|e]; [|discriminate].
  exists b. split; [reflexivity|].
  apply andb_true_iff in Hall. destruct Hall as [H1 H2].
  apply Z.eqb_eq in H1, H2. simpl. now rewrite H1, H2.
Qed.

Lemma nibbles_of_bytes_cons b bs :
  nibbles_of_bytes (b :: bs) = nibbles_of_bytes [b] ++ nibbles_of_bytes bs.
Proof. reflexivity. Qed.

(** An even number of nibbles is packed without error, two per byte,
    and read back unchanged. *)
Lemma pack_pairs_even n :
  forall l,
    List.length l = (2 * n)%nat -> Forall is_nibble l ->
    exists bs,
      pack_pairs l = Ok bs /\ nibbles_of_bytes bs = l /\ List.length bs = n.
Proof.
  induction n as [|n IH]; intros l Hlen Hall.
  - destruct l; [|discriminate]. exists []. repeat split.
  - destruct l as [|hi [|lo r]]; try (simpl in Hlen; lia).
    inversion Hall as [|? ? Hhi Hall']; subst.
    inversion Hall' as [|? ? Hlo Hr]; subst.
    destruct (pack_one hi lo Hhi Hlo) as (b & Hb & Hnb).
    destruct (IH r) as (bs & Hbs & Hnbs & Hl); [simpl in Hlen; lia|assumption|].
    exists (b :: bs). cbn [pack_pairs]. rewrite Hb. cbn [bind].
    rewrite Hbs. cbn [bind]. repeat split.
    + rewrite nibbles_of_bytes_cons, Hnb, Hnbs. reflexivity.
    + simpl. now rewrite Hl.
Qed.

Lemma pop_snoc {A : Type} (l : list A) (x : A) : Py.pop (l ++ [x]) = Ok (l, x).
Proof.
  unfold Py.pop. rewrite rev_app_distr. simpl. now rewrite rev_involutive.
Qed.

End NibblePairs.

(** ** What [pack_comp3_fixed] emits *)

Section PackUnpack.

Lemma pack_comp3_fixed_nibbles v D :
  pack_comp3_fixed v D = pack_pairs (packed_nibbles v D).
Proof.
  unfold pack_comp3_fixed, packed_nibbles, packed_digits, sign_nibble.
  rewrite str_nonneg by lia.
  destruct (rjust_zero (N.to_uint (Z.to_N (Z.abs v))) D) as (k & -> & ->).
  rewrite mapM_int_chars. reflexivity.
Qed.

Lemma packed_nibbles_shape v D :
  exists d,
    packed_nibbles v D = uint_vals d ++ [sign_nibble v]
    /\ unorm d = N.to_uint (Z.to_N (Z.abs v))
    /\ Nat.Even (S (nb_digits d))
    /\ (nb_digits d = nb_digits (packed_digits v D)
        \/ nb_digits d = S (nb_digits (packed_digits v D))).
Proof.
  unfold packed_nibbles.
  set (d := packed_digits v D).
  assert (Hnorm : unorm d = N.to_uint (Z.to_N (Z.abs v))).
  { unfold d, packed_digits. rewrite unorm_iter_D0. apply unorm_to_uint. }
  rewrite length_app, uint_vals_length. cbn [List.length].
  destruct (Z.eqb_spec (Z.of_nat (nb_digits d + 1) mod 2) 1) as [Hodd|Heven].
  - exists (D0 d). cbn [uint_vals nb_digits List.app]. repeat split.
    + now rewrite unorm_D0.
    + apply Nat.Even_succ, Nat.Odd_succ.
      exists (Z.to_nat (Z.of_nat (nb_digits d + 1) / 2)).
      pose proof (Z.div_mod (Z.of_nat (nb_digits d + 1)) 2). lia.
    + now right.
  - exists d. repeat split; auto.
    exists (Z.to_nat (Z.of_nat (nb_digits d + 1) / 2)).
    pose proof (Z.div_mod (Z.of_nat (nb_digits d + 1)) 2).
    pose proof (Z.mod_pos_bound (Z.of_nat (nb_digits d + 1)) 2). lia.
Qed.

Lemma sign_nibble_is_nibble v : is_nibble (sign_nibble v).
Proof. unfold sign_nibble, is_nibble. destruct (v <? 0); lia. Qed.

(** Decoding a digit list followed by a sign nibble. *)
Lemma unpack_nibbles d v bs :
  nibbles_of_bytes bs = uint_vals d ++ [sign_nibble v] ->
  unorm d = N.to_uint (Z.to_N (Z.abs v)) ->
  unpack_comp3 bs = Ok v.
Proof.
  intros Hbs Hnorm. unfold unpack_comp3.
  rewrite Hbs, pop_snoc. cbn [bind].
  rewrite join_str_vals, lstrip_zero_or, int_uint by apply unorm_nonnil.
  cbn [bind]. f_equal.
  unfold Z.of_uint.
  change (Pos.of_uint (unorm d)) with (N.of_uint (unorm d)).
  rewrite Hnorm, DecimalN.Unsigned.of_to.
  unfold sign_nibble. destruct (Z.ltb_spec v 0); simpl; lia.
Qed.

(** Encoding never raises, whatever the value and the width, and the
    bytes decode to the value that was encoded. *)
Lemma pack_unpack_any v D :
  exists bs,
    pack_comp3_fixed v D = Ok bs
    /\ unpack_comp3 bs = Ok v
    /\ nibbles_of_bytes bs = packed_nibbles v D.
Proof.
  destruct (packed_nibbles_shape v D) as (d & Hshape & Hnorm & Heven & _).
  rewrite pack_comp3_fixed_nibbles.
  destruct Heven as [n Hn].
  destruct (pack_pairs_even n (packed_nibbles v D)) as (bs & Hp & Hnb & _).
  - rewrite Hshape, length_app, uint_vals_length. simpl. lia.
  - rewrite Hshape. apply Forall_app. split.
    + apply uint_vals_nibbles.
    + constructor; [apply sign_nibble_is_nibble|constructor].
  - exists bs. repeat split; auto.
    apply (unpack_nibbles d); [now rewrite Hnb|assumption].
Qed.

End PackUnpack.

(** ** How many digits [str] prints *)

Section DigitCount.

Import DecimalPos.Unsigned.

Lemma usize_nb_digits d : usize d = N.of_nat (nb_digits d).
Proof.
  induction d; cbn [usize nb_digits]; rewrite ?IHd; lia.
Qed.

(** Big-endian reading: the head digit weighs [10 ^ (digits behind it)]. *)
Lemma of_uint_head d :
  d <> Nil ->
  (Pos.of_uint d = hd d * 10 ^ usize (tl d) + Pos.of_uint (tl d))%N.
Proof.
  intros Hd. rewrite !of_uint_alt.
  destruct d; try congruence; unfold rev at 1; cbn [revapp];
    rewrite of_lu_revapp; cbn [hd tl of_lu]; lia.
Qed.

Lemma of_uint_upper d : (Pos.of_uint d < 10 ^ usize d)%N.
Proof.
  induction d;
    try (rewrite of_uint_head by discriminate; cbn [hd tl usize];
         rewrite N.pow_succ_r'; lia).
  simpl. lia.
Qed.

Lemma of_uint_lower d :
  hd d <> 0%N -> (10 ^ usize (tl d) <= Pos.of_uint d)%N.
Proof.
  intros Hh. destruct d; try (simpl in Hh; congruence);
    rewrite of_uint_head by discriminate; cbn [hd tl]; lia.
Qed.

Lemma normal_head d :
  unorm d = d -> d = zero \/ hd d <> 0%N.
Proof.
  intros H. unfold unorm in H.
  destruct (nzhead d) eqn:Hnz; auto; right;
    rewrite <- H; simpl; try discriminate.
  exfalso. eapply nzhead_nonzero. eassumption.
Qed.

Lemma ndigits_str z : ndigits z = String.length (Py.str (Z.abs z)).
Proof.
  unfold ndigits. rewrite str_nonneg by lia. now rewrite string_of_uint_length.
Qed.

Lemma ndigits_pos z : (1 <= ndigits z)%nat.
Proof.
  unfold ndigits. pose proof (N_to_uint_nonnil (Z.to_N (Z.abs z))) as H.
  destruct (N.to_uint _); simpl; try lia. congruence.
Qed.

(** A magnitude below [10 ^ D] prints in at most [D] digits. *)
Lemma ndigits_fits z D :
  1 <= D -> Z.abs z < 10 ^ D -> (ndigits z <= Z.to_nat D)%nat.
Proof.
  intros HD Hz. unfold ndigits.
  set (n := Z.to_N (Z.abs z)).
  destruct (normal_head (N.to_uint n) (unorm_to_uint n)) as [H0|Hh].
  - rewrite H0. simpl. lia.
  - pose proof (of_uint_lower _ Hh) as Hlow.
    change (Pos.of_uint (N.to_uint n)) with (N.of_uint (N.to_uint n)) in Hlow.
    rewrite DecimalN.Unsigned.of_to, usize_nb_digits in Hlow.
    assert (Hnb : nb_digits (N.to_uint n) = S (nb_digits (tl (N.to_uint n)))).
    { pose proof (N_to_uint_nonnil n). destruct (N.to_uint n); simpl; congruence. }
    rewrite Hnb.
    set (k := nb_digits (tl (N.to_uint n))) in *.
    assert (Hk : 10 ^ Z.of_nat k <= Z.abs z).
    { replace (Z.abs z) with (Z.of_N n) by (unfold n; lia).
      replace (10 ^ Z.of_nat k) with (Z.of_N (10 ^ N.of_nat k)).
      - lia.
      - rewrite N2Z.inj_pow. f_equal. lia. }
    destruct (Z_lt_le_dec (Z.of_nat k) D) as [|Hge]; [lia|].
    assert (10 ^ D <= 10 ^ Z.of_nat k) by (apply Z.pow_le_mono_r; lia).
    lia.
Qed.

(** A magnitude of at least [10 ^ D] prints in more than [D] digits. *)
Lemma ndigits_overflow z D :
  10 ^ D <= Z.abs z -> (Z.to_nat D < ndigits z)%nat.
Proof.
  intros Hz. unfold ndigits.
  set (n := Z.to_N (Z.abs z)).
  pose proof (of_uint_upper (N.to_uint n)) as Hup.
  change (Pos.of_uint (N.to_uint n)) with (N.of_uint (N.to_uint n)) in Hup.
  rewrite DecimalN.Unsigned.of_to, usize_nb_digits in Hup.
  set (k := nb_digits (N.to_uint n)) in *.
  assert (Hk : Z.abs z < 10 ^ Z.of_nat k).
  { replace (Z.abs z) with (Z.of_N n) by (unfold n; lia).
    replace (10 ^ Z.of_nat k) with (Z.of_N (10 ^ N.of_nat k)).
    - lia.
    - rewrite N2Z.inj_pow. f_equal. lia. }
  destruct (Z_lt_le_dec D 0) as [Hneg|Hpos].
  { pose proof (ndigits_pos z) as Hpos. unfold ndigits in Hpos. fold n k in Hpos. lia. }
  destruct (le_lt_dec k (Z.to_nat D)) as [Hle|]; [|lia].
  assert (10 ^ Z.of_nat k <= 10 ^ D) by (apply Z.pow_le_mono_r; lia).
  lia.
Qed.

Lemma packed_digits_count v D :
  nb_digits (packed_digits v D) = Nat.max (Z.to_nat D) (ndigits v).
Proof.
  unfold packed_digits, ndigits. rewrite nb_digits_iter_D0. lia.
Qed.

End DigitCount.

(** ** The packed-decimal codec: round trip, overflow, sign nibble *)

Section CodecClaims.

Lemma nibbles_of_bytes_length bs :
  List.length (nibbles_of_bytes bs) = (2 * List.length bs)%nat.
Proof.
  induction bs as [|b bs IH]; [reflexivity|].
  rewrite nibbles_of_bytes_cons, length_app, IH. simpl. lia.
Qed.

Lemma packed_nibbles_length v D :
  let m := Nat.max (Z.to_nat D) (ndigits v) in
  List.length (packed_nibbles v D) = if Nat.even m then (m + 2)%nat else (m + 1)%nat.
Proof.
  cbv zeta. unfold packed_nibbles.
  set (l := uint_vals (packed_digits v D) ++ [sign_nibble v]).
  assert (Hl : List.length l = (Nat.max (Z.to_nat D) (ndigits v) + 1)%nat).
  { unfold l. now rewrite length_app, uint_vals_length, packed_digits_count. }
  set (m := Nat.max (Z.to_nat D) (ndigits v)) in *.
  rewrite Hl.
  destruct (Nat.even m) eqn:Hm.
  - apply Nat.even_spec in Hm. destruct Hm as [q Hq].
    destruct (Z.eqb_spec (Z.of_nat (m + 1) mod 2) 1) as [_|Hne].
    + cbn [List.length]. lia.
    + exfalso. apply Hne.
      replace (Z.of_nat (m + 1)) with (1 + Z.of_nat q * 2) by lia.
      now rewrite Z.mod_add by lia.
  - assert (Hodd : Nat.odd m = true) by (rewrite <- Nat.negb_even, Hm; reflexivity).
    apply Nat.odd_spec in Hodd. destruct Hodd as [q Hq].
    destruct (Z.eqb_spec (Z.of_nat (m + 1) mod 2) 1) as [He|_]; [|assumption].
    exfalso.
    replace (Z.of_nat (m + 1)) with (0 + (Z.of_nat q + 1) * 2) in He by lia.
    rewrite Z.mod_add in He by lia. discriminate.
Qed.

Lemma pack_length v D bs :
  pack_comp3_fixed v D = Ok bs ->
  let m := Nat.max (Z.to_nat D) (ndigits v) in
  (2 * List.length bs)%nat = if Nat.even m then (m + 2)%nat else (m + 1)%nat.
Proof.
  intros Hp m.
  destruct (pack_unpack_any v D) as (bs' & Hp' & _ & Hn).
  rewrite Hp in Hp'. injection Hp' as <-.
  rewrite <- nibbles_of_bytes_length, Hn. apply packed_nibbles_length.
Qed.

End CodecClaims.

(** C1.  Packed-decimal round trip.  For a width [D] of 11 or 13 digits and
    every integer [v] whose magnitude fits in [D] digits, [pack_comp3_fixed]
    returns a field of [(D + 1) / 2] bytes (6 and 7) and [unpack_comp3]
    reads [v] back from it; zero and both extreme values of either sign are
    instances. *)
Theorem C1_round_trip (v D : Z) :
  D = 11 \/ D = 13 ->
  Z.abs v < 10 ^ D ->
  exists b,
    pack_comp3_fixed v D = Ok b
    /\ Z.of_nat (List.length b) = (D + 1) / 2
    /\ unpack_comp3 b = Ok v.
Proof.
  intros HD Hv.
  destruct (pack_unpack_any v D) as (b & Hp & Hu & _).
  exists b. repeat split; auto.
  pose proof (pack_length v D b Hp) as Hl. cbv zeta in Hl.
  assert (Hfit : (ndigits v <= Z.to_nat D)%nat) by (apply ndigits_fits; lia).
  rewrite Nat.max_l in Hl by assumption.
  destruct HD as [-> | ->]; simpl in Hl; change ((11 + 1) / 2) with 6;
    change ((13 + 1) / 2) with 7; lia.
Qed.

Lemma C1_round_trip_witness :
  exists b,
    pack_comp3_fixed (-9999999999999) 13 = Ok b
    /\ Z.of_nat (List.length b) = (13 + 1) / 2
    /\ unpack_comp3 b = Ok (-9999999999999).
Proof.
  apply C1_round_trip; [right; reflexivity | vm_compute; reflexivity].
Defined.

Example round_trip_zero :
  pack_comp3_fixed 0 11 = Ok [x00; x00; x00; x00; x00; x0c]%byte
  /\ unpack_comp3 [x00; x00; x00; x00; x00; x0c]%byte = Ok 0.
Proof. split; vm_compute; reflexivity. Qed.

Example round_trip_max_11 :
  pack_comp3_fixed 99999999999 11 = Ok [x99; x99; x99; x99; x99; x9c]%byte
  /\ unpack_comp3 [x99; x99; x99; x99; x99; x9c]%byte = Ok 99999999999.
Proof. split; vm_compute; reflexivity. Qed.

Example round_trip_min_13 :
  pack_comp3_fixed (-9999999999999) 13
  = Ok [x99; x99; x99; x99; x99; x99; x9d]%byte
  /\ unpack_comp3 [x99; x99; x99; x99; x99; x99; x9d]%byte = Ok (-9999999999999).
Proof. split; vm_compute; reflexivity. Qed.

(** C4, as stated, fails: a twelve-digit magnitude encoded at width 11
    raises nothing; seven bytes come back instead of six. *)
Lemma C4_counterexample :
  10 ^ 11 <= Z.abs 100000000000
  /\ pack_comp3_fixed 100000000000 11
     = Ok [x01; x00; x00; x00; x00; x00; x0c]%byte
  /\ raises (pack_comp3_fixed 100000000000 11) = false.
Proof. repeat split; vm_compute; congruence. Qed.

(** C4, amended.  For every integer [v] whose magnitude needs more than [D]
    digits, [pack_comp3_fixed] raises no error: it returns a byte string
    that holds every digit of [v] (decoding it gives [v] back, so nothing is
    truncated), and that is longer than the [(D + 1) / 2] bytes of the
    field whenever [D] is odd, as 11 and 13 are. *)
Theorem C4_overflow_unchecked (v D : Z) :
  10 ^ D <= Z.abs v ->
  exists b,
    pack_comp3_fixed v D = Ok b
    /\ unpack_comp3 b = Ok v
    /\ (Z.odd D = false \/ (D + 1) / 2 < Z.of_nat (List.length b)).
Proof.
  intros Hv.
  destruct (pack_unpack_any v D) as (b & Hp & Hu & _).
  exists b. repeat split; auto.
  destruct (Z.odd D) eqn:Hodd; [right|now left].
  pose proof (pack_length v D b Hp) as Hl. cbv zeta in Hl.
  pose proof (ndigits_overflow v D Hv) as Hover.
  rewrite Nat.max_r in Hl by lia.
  rewrite Z.odd_spec in Hodd. destruct Hodd as [q ->].
  replace ((2 * q + 1 + 1) / 2) with (q + 1)
    by (replace (2 * q + 1 + 1) with ((q + 1) * 2) by lia;
        now rewrite Z.div_mul by lia).
  destruct (Nat.even (ndigits v)) eqn:He.
  - apply Nat.even_spec in He. destruct He as [k Hk]. lia.
  - lia.
Qed.

Lemma C4_overflow_unchecked_witness :
  exists b,
    pack_comp3_fixed (-100000000000) 11 = Ok b
    /\ unpack_comp3 b = Ok (-100000000000)
    /\ (Z.odd 11 = false \/ (11 + 1) / 2 < Z.of_nat (List.length b)).
Proof.
  apply C4_overflow_unchecked. vm_compute. congruence.
Defined.

(** The length check of the writers is what stops an overflowing amount:
    with seven bytes or more for the amount the record built by
    [write_exceptions] is longer than [TXN_REC_LEN] and the assertion
    fails. *)
Section WriterOverflow.

Lemma string_length_app (s t : string) :
  String.length (s ++ t) = (String.length s + String.length t)%nat.
Proof. induction s as [|c s IH]; simpl; congruence. Qed.

Lemma list_byte_of_string_length s :
  List.length (list_byte_of_string s) = String.length s.
Proof.
  unfold list_byte_of_string. rewrite length_map.
  induction s as [|c s IH]; simpl; congruence.
Qed.

Lemma replicate_length n c : String.length (Py.replicate n c) = n.
Proof. induction n as [|n IH]; simpl; congruence. Qed.

Lemma rjust_length s w c :
  (Z.to_nat w <= String.length (Py.rjust s w c))%nat.
Proof.
  unfold Py.rjust. rewrite string_length_app, replicate_length. lia.
Qed.

Lemma format_0d_length z w :
  (Z.to_nat w <= String.length (format_0d z w))%nat.
Proof.
  unfold format_0d. destruct (z <? 0).
  - cbn [String.length].
    pose proof (rjust_length (Py.str (- z)) (w - 1) "0"). lia.
  - apply rjust_length.
Qed.

Lemma fit_length b n : List.length (fit b n) = n.
Proof.
  unfold fit. rewrite length_app, repeat_length, length_firstn. lia.
Qed.

Lemma encode_ascii_length s b :
  encode_ascii s = Ok b -> List.length b = String.length s.
Proof.
  unfold encode_ascii. destruct (forallb _ _); [|discriminate].
  intros [= <-]. apply list_byte_of_string_length.
Qed.

Lemma exception_record_overflow t :
  10 ^ 11 <= Z.abs (Txn.AMOUNT t) -> raises (exception_record t) = true.
Proof.
  intros Hv. unfold exception_record.
  destruct (encode_ascii (Txn.ACCT_ID t)) as [acct|]; [|reflexivity].
  destruct (encode_ascii (Txn.TXN_ID t)) as [txn|]; [|reflexivity].
  destruct (encode_ascii (Txn.ORIG_ID t)) as [orig|]; [|reflexivity].
  destruct (encode_ascii (Txn.CODE t)) as [code|]; [|reflexivity].
  cbn [bind].
  destruct (pack_comp3_fixed (Txn.AMOUNT t) 11) as [amount|] eqn:Hp;
    [|reflexivity].
  cbn [bind].
  destruct (encode_ascii (format_0d (Txn.TS t) 14)) as [ts|] eqn:Hts;
    [|reflexivity].
  destruct (encode_ascii (Txn.CHANNEL t)) as [channel|]; [|reflexivity].
  cbn [bind].
  pose proof (pack_length _ _ _ Hp) as Hl. cbv zeta in Hl.
  pose proof (ndigits_overflow _ _ Hv) as Hover.
  rewrite Nat.max_r in Hl by lia.
  pose proof (encode_ascii_length _ _ Hts) as Hlts.
  pose proof (format_0d_length (Txn.TS t) 14) as Hfmt.
  assert (Hamount : (7 <= List.length amount)%nat).
  { destruct (Nat.even (ndigits (Txn.AMOUNT t))); change (Z.to_nat 11) with 11%nat in *; lia. }
  rewrite !length_app, !fit_length.
  destruct (Z.eqb_spec
              (Z.of_nat (12 + (16 + (16 + (4 + (List.length amount
                                                 + (List.length ts + 4)))))))
              TXN_REC_LEN) as [He|]; [|reflexivity].
  unfold TXN_REC_LEN in He. change (Z.to_nat 14) with 14%nat in *. lia.
Qed.

End WriterOverflow.

(** C10.  [pack_comp3_fixed] ends every field with the sign nibble 0xD
    when the value is negative and 0xC when it is not, and with no other
    one, so encoding after decoding is not the identity on bytes: the
    six-byte field 00 00 00 20 00 0F ends with 0xF, decodes to 20000, and
    20000 is encoded as 00 00 00 20 00 0C. *)
Theorem C10_sign_nibble_normalized :
  (forall v D, exists b l s,
      pack_comp3_fixed v D = Ok b
      /\ nibbles_of_bytes b = l ++ [s]
      /\ s = (if v <? 0 then 13 else 12))
  /\ (exists b v,
        List.length b = 6%nat
        /\ List.last (nibbles_of_bytes b) 0 = 15
        /\ unpack_comp3 b = Ok v
        /\ 0 <= v
        /\ pack_comp3_fixed v 11 <> Ok b).
Proof.
  split.
  - intros v D.
    destruct (pack_unpack_any v D) as (b & Hp & _ & Hn).
    destruct (packed_nibbles_shape v D) as (d & Hshape & _).
    exists b, (uint_vals d), (sign_nibble v). repeat split; auto.
    congruence.
  - exists [x00; x00; x00; x20; x00; x0f]%byte, 20000.
    repeat split; try (vm_compute; congruence).
Qed.

(** ** Stable sorting *)

Section SortedFacts.

Context {A K : Type} (lt : K -> K -> bool) (key : A -> K).

Hypothesis lt_asym : forall a b, lt a b = true -> lt b a = false.
Hypothesis le_trans :
  forall a b c, lt b a = false -> lt c b = false -> lt c a = false.

Lemma insert_perm x l : Permutation (x :: l) (insert lt key x l).
Proof.
  induction l as [|y r IH]; simpl; auto.
  destruct (lt (key y) (key x)); auto.
  eapply perm_trans; [apply perm_swap|]. now apply perm_skip.
Qed.

Lemma sorted_perm l : Permutation l (sorted lt key l).
Proof.
  induction l as [|x r IH]; simpl; auto.
  eapply perm_trans; [|apply insert_perm]. now apply perm_skip.
Qed.

Lemma insert_In x y l : In y (insert lt key x l) <-> y = x \/ In y l.
Proof.
  split; intros H.
  - apply (Permutation_in _ (Permutation_sym (insert_perm x l))) in H.
    simpl in H. intuition.
  - apply (Permutation_in _ (insert_perm x l)). simpl. intuition.
Qed.

Lemma insert_sorted x l :
  StronglySorted (key_le lt key) l -> StronglySorted (key_le lt key) (insert lt key x l).
Proof.
  induction l as [|y r IH]; intros Hs; simpl.
  - repeat constructor.
  - apply StronglySorted_inv in Hs. destruct Hs as [Hr Hy].
    destruct (lt (key y) (key x)) eqn:Hyx.
    + constructor; [auto|].
      rewrite Forall_forall in *. intros z Hz.
      apply insert_In in Hz. destruct Hz as [->|Hz]; [|auto].
      unfold key_le. auto.
    + constructor; [constructor; auto|].
      constructor; [exact Hyx|].
      rewrite Forall_forall in *. intros z Hz.
      unfold key_le in *. eapply le_trans; [exact Hyx|auto].
Qed.

Lemma sorted_sorted l : StronglySorted (key_le lt key) (sorted lt key l).
Proof.
  induction l as [|x r IH]; simpl; [constructor|now apply insert_sorted].
Qed.

Lemma insert_front x l : Forall (key_le lt key x) l -> insert lt key x l = x :: l.
Proof.
  intros H. destruct l as [|y r]; [reflexivity|].
  inversion H as [|? ? Hy _]; subst. simpl. unfold key_le in Hy. now rewrite Hy.
Qed.

Lemma filter_sorted (p : A -> bool) l :
  StronglySorted (key_le lt key) l -> StronglySorted (key_le lt key) (filter p l).
Proof.
  induction l as [|y r IH]; intros Hs; simpl; [constructor|].
  apply StronglySorted_inv in Hs. destruct Hs as [Hr Hy].
  destruct (p y); auto.
  constructor; auto.
  rewrite Forall_forall in *. intros z Hz.
  apply filter_In in Hz. now apply Hy.
Qed.

Lemma insert_filter (p : A -> bool) x l :
  StronglySorted (key_le lt key) l ->
  filter p (insert lt key x l)
  = if p x then insert lt key x (filter p l) else filter p l.
Proof.
  induction l as [|y r IH]; intros Hs.
  - simpl. destruct (p x); reflexivity.
  - apply StronglySorted_inv in Hs. destruct Hs as [Hr Hy].
    cbn [insert]. destruct (lt (key y) (key x)) eqn:Hyx.
    + cbn [filter]. rewrite (IH Hr).
      destruct (p y), (p x); cbn [insert]; rewrite ?Hyx; reflexivity.
    + cbn [filter]. destruct (p x); [|reflexivity].
      rewrite insert_front; [reflexivity|].
      assert (Hall : Forall (key_le lt key x) (y :: r)).
      { constructor; [exact Hyx|].
        rewrite Forall_forall in *. intros z Hz.
        unfold key_le in *. eapply le_trans; [exact Hyx|auto]. }
      change (if p y then y :: filter p r else filter p r)
        with (filter p (y :: r)).
      rewrite Forall_forall in *. intros z Hz.
      apply filter_In in Hz. now apply Hall.
Qed.

(** Sorting commutes with selection: a stable sort keeps the selected
    elements in the relative order it gives them in the whole list. *)
Lemma sorted_filter (p : A -> bool) l :
  sorted lt key (filter p l) = filter p (sorted lt key l).
Proof.
  induction l as [|x r IH]; [reflexivity|].
  cbn [sorted filter]. rewrite insert_filter by apply sorted_sorted.
  destruct (p x); cbn [sorted]; now rewrite IH.
Qed.

End SortedFacts.

(** ** The orders compared by the engine *)

Section StringOrder.

Local Open Scope string_scope.

Lemma compare_OT s t : (s ?= t) = OrdersEx.String_as_OT.compare s t.
Proof.
  revert t. induction s as [|a s IH]; destruct t as [|b t]; reflexivity.
Qed.

Lemma compare_refl s : (s ?= s) = Eq.
Proof.
  rewrite compare_OT.
  destruct (OrdersEx.String_as_OT.compare_spec s s) as [_|H|H]; auto;
    exfalso; revert H; apply OrdersEx.String_as_OT.lt_strorder.
Qed.

Lemma compare_lt_trans s t u : (s ?= t) = Lt -> (t ?= u) = Lt -> (s ?= u) = Lt.
Proof.
  rewrite !compare_OT. apply OrdersEx.String_as_OT.lt_strorder.
Qed.

Lemma compare_gt_lt s t : (s ?= t) = Gt <-> (t ?= s) = Lt.
Proof.
  rewrite (String.compare_antisym t s).
  destruct (s ?= t); simpl; split; congruence.
Qed.

Lemma ltb_lt s t : (s <? t) = true <-> (s ?= t) = Lt.
Proof. unfold String.ltb. destruct (s ?= t); split; congruence. Qed.

Lemma ltb_irrefl s : (s <? s) = false.
Proof. unfold String.ltb. now rewrite compare_refl. Qed.

Lemma ltb_asym s t : (s <? t) = true -> (t <? s) = false.
Proof.
  unfold String.ltb. rewrite (String.compare_antisym t s).
  destruct (s ?= t); simpl; congruence.
Qed.

Lemma ltb_trans s t u : (s <? t) = true -> (t <? u) = true -> (s <? u) = true.
Proof. rewrite !ltb_lt. apply compare_lt_trans. Qed.

(** Two strings neither of which is below the other are equal. *)
Lemma ltb_antisym s t : (s <? t) = false -> (t <? s) = false -> s = t.
Proof.
  unfold String.ltb. rewrite (String.compare_antisym t s).
  destruct (s ?= t) eqn:H; simpl; try congruence.
  intros _ _. now apply String.compare_eq_iff.
Qed.

Lemma ltb_total s t : (s <? t) = false -> s = t \/ (t <? s) = true.
Proof.
  intros H. destruct (t <? s) eqn:H'; auto. left. now apply ltb_antisym.
Qed.

Lemma ltb_le_trans s t u :
  (t <? s) = false -> (u <? t) = false -> (u <? s) = false.
Proof.
  intros H1 H2. destruct (u <? s) eqn:H3; auto.
  destruct (ltb_total _ _ H1) as [->|H1']; [congruence|].
  destruct (ltb_total _ _ H2) as [->|H2']; [congruence|].
  pose proof (ltb_trans _ _ _ H3 H1') as H4.
  apply ltb_asym in H4. congruence.
Qed.

Lemma ltb_lt_le_trans s t u :
  (s <? t) = true -> (u <? t) = false -> (s <? u) = true.
Proof.
  intros H1 H2. destruct (ltb_total _ _ H2) as [->|H2']; auto.
  eapply ltb_trans; eauto.
Qed.

Lemma leb_ltb s t : (s <=? t) = negb (t <? s).
Proof.
  unfold String.leb, String.ltb. rewrite (String.compare_antisym s t).
  destruct (t ?= s); reflexivity.
Qed.

End StringOrder.

Section KeyOrder.

Local Open Scope string_scope.

Lemma key_lt_asym k1 k2 : key_lt k1 k2 = true -> key_lt k2 k1 = false.
Proof.
  destruct k1 as [[a1 ts1] id1], k2 as [[a2 ts2] id2]. unfold key_lt.
  rewrite (String.eqb_sym a2 a1), (Z.eqb_sym ts2 ts1).
  destruct (String.eqb_spec a1 a2) as [->|Ha]; simpl.
  - destruct (Z.eqb_spec ts1 ts2) as [->|Hts]; simpl.
    + apply ltb_asym.
    + intros H. apply Z.ltb_lt in H. apply Z.ltb_ge. lia.
  - apply ltb_asym.
Qed.

Lemma key_lt_le_trans k1 k2 k3 :
  key_lt k2 k1 = false -> key_lt k3 k2 = false -> key_lt k3 k1 = false.
Proof.
  destruct k1 as [[a1 ts1] id1], k2 as [[a2 ts2] id2], k3 as [[a3 ts3] id3].
  unfold key_lt.
  destruct (String.eqb_spec a2 a1) as [->|Ha21]; simpl.
  - destruct (String.eqb_spec a3 a1) as [->|Ha31]; simpl; [|auto].
    destruct (Z.eqb_spec ts2 ts1) as [->|Hts21]; simpl.
    + destruct (Z.eqb_spec ts3 ts1) as [->|Hts31]; simpl; [|auto].
      apply ltb_le_trans.
    + intros H1. apply Z.ltb_ge in H1.
      destruct (Z.eqb_spec ts3 ts2) as [->|Hts32]; simpl.
      * intros _. destruct (Z.eqb_spec ts2 ts1); [lia|]. simpl.
        apply Z.ltb_ge. lia.
      * intros H2. apply Z.ltb_ge in H2.
        destruct (Z.eqb_spec ts3 ts1); [lia|]. simpl. apply Z.ltb_ge. lia.
  - intros H1.
    destruct (String.eqb_spec a3 a2) as [->|Ha32]; simpl.
    + intros _. destruct (String.eqb_spec a2 a1); [congruence|]. simpl. exact H1.
    + intros H2.
      assert (H3 : (a3 <? a1) = false) by (eapply ltb_le_trans; eauto).
      destruct (String.eqb_spec a3 a1) as [->|Ha31]; simpl; [|exact H3].
      exfalso. apply Ha21. now apply ltb_antisym.
Qed.

(** Transactions in key order are in account order, and within one
    account in (timestamp, transaction id) order. *)
Lemma key_le_acct t u :
  key_lt (txn_key u) (txn_key t) = false ->
  (Txn.ACCT_ID u <? Txn.ACCT_ID t) = false.
Proof.
  unfold key_lt, txn_key.
  destruct (String.eqb_spec (Txn.ACCT_ID u) (Txn.ACCT_ID t)) as [->|Hne]; simpl.
  - intros _. apply ltb_irrefl.
  - auto.
Qed.

Lemma key_le_same_acct t u :
  key_lt (txn_key u) (txn_key t) = false ->
  Txn.ACCT_ID t = Txn.ACCT_ID u ->
  Txn.TS t < Txn.TS u
  \/ (Txn.TS t = Txn.TS u /\ (Txn.TXN_ID t <=? Txn.TXN_ID u) = true).
Proof.
  unfold key_lt, txn_key. intros H Heq. rewrite Heq, String.eqb_refl in H.
  simpl in H. destruct (Z.eqb_spec (Txn.TS u) (Txn.TS t)) as [He|Hne]; simpl in H.
  - right. split; [congruence|]. now rewrite leb_ltb, H.
  - left. apply Z.ltb_ge in H. lia.
Qed.

End KeyOrder.

(** ** One transaction *)

Section PostTxn.

Ltac post_cases :=
  unfold post_txn;
  repeat match goal with
         | |- context [if ?b then _ else _] => destruct b eqn:?
         end.

Lemma post_txn_frame a exc t : frame (fst (post_txn (a, exc) t)) = frame a.
Proof. post_cases; reflexivity. Qed.

Lemma post_txn_id a exc t :
  Account.ACCT_ID (fst (post_txn (a, exc) t)) = Account.ACCT_ID a.
Proof. post_cases; reflexivity. Qed.

Lemma post_txn_exc a exc t :
  post_txn (a, exc) t
  = (fst (post_txn (a, []) t), exc ++ snd (post_txn (a, []) t)).
Proof. post_cases; cbn [fst snd]; rewrite ?List.app_nil_r; reflexivity. Qed.

Lemma post_all_exc l : forall a exc,
  post_all (a, exc) l = (posted a l, exc ++ rejected a l).
Proof.
  unfold posted, rejected, post_all.
  induction l as [|t l IH]; intros a exc; cbn [fold_left fst snd].
  - now rewrite List.app_nil_r.
  - rewrite post_txn_exc. destruct (post_txn (a, []) t) as [a' e'].
    cbn [fst snd]. rewrite (IH a' (exc ++ e')), (IH a' e').
    cbn [fst snd]. now rewrite List.app_assoc.
Qed.

Lemma posted_frame l : forall a, frame (posted a l) = frame a.
Proof.
  unfold posted, post_all.
  induction l as [|t l IH]; intros a; cbn [fold_left]; [reflexivity|].
  destruct (post_txn (a, []) t) as [a' e'] eqn:E.
  fold (post_all (a', e') l). rewrite post_all_exc. cbn [fst].
  unfold posted, post_all. rewrite IH.
  change a' with (fst (a', e')). rewrite <- E. apply post_txn_frame.
Qed.

Lemma posted_id l a : Account.ACCT_ID (posted a l) = Account.ACCT_ID a.
Proof.
  pose proof (posted_frame l a) as H. unfold frame in H. congruence.
Qed.

Lemma post_all_cons a t l :
  post_all (a, []) (t :: l)
  = (posted (posted a [t]) l, rejected a [t] ++ rejected (posted a [t]) l).
Proof.
  change (post_all (a, []) (t :: l)) with (post_all (post_txn (a, []) t) l).
  rewrite (surjective_pairing (post_txn (a, []) t)), post_all_exc.
  reflexivity.
Qed.

Lemma posted_cons a t l : posted a (t :: l) = posted (posted a [t]) l.
Proof. unfold posted at 1. now rewrite post_all_cons. Qed.

Lemma posted_app a l1 l2 : posted a (l1 ++ l2) = posted (posted a l1) l2.
Proof.
  revert a. induction l1 as [|t l1 IH]; intros a; [reflexivity|].
  cbn [List.app]. rewrite (posted_cons a t (l1 ++ l2)), IH.
  now rewrite (posted_cons a t l1).
Qed.

Lemma rejected_cons a t l :
  rejected a (t :: l) = rejected a [t] ++ rejected (posted a [t]) l.
Proof. unfold rejected at 1. now rewrite post_all_cons. Qed.

(** Transactions that are not of today, and transactions with a code the
    dispatch does not know, leave the whole state as it is. *)
Lemma post_txn_off_date st t : on_today t = false -> post_txn st t = st.
Proof.
  unfold on_today, post_txn. destruct st as [a exc]. now intros ->.
Qed.

Lemma post_txn_unknown st t : known_code t = false -> post_txn st t = st.
Proof.
  unfold known_code, post_txn. destruct st as [a exc]. intros H.
  apply orb_false_iff in H. destruct H as [H ->].
  apply orb_false_iff in H. destruct H as [H ->].
  rewrite H. destruct (_ =? TODAY); reflexivity.
Qed.

Lemma post_all_filter (p : Txn.t -> bool) :
  (forall st t, p t = false -> post_txn st t = st) ->
  forall l st, post_all st (filter p l) = post_all st l.
Proof.
  intros Hp. unfold post_all.
  induction l as [|t l IH]; intros st; cbn [filter fold_left]; [reflexivity|].
  destruct (p t) eqn:Ht; cbn [fold_left].
  - apply IH.
  - rewrite (Hp st t Ht). apply IH.
Qed.

End PostTxn.

(** ** The merge loop on a sorted transaction list *)

Section MergeLoop.

Lemma filter_all {X : Type} (p : X -> bool) l :
  (forall x, In x l -> p x = true) -> filter p l = l.
Proof.
  induction l as [|x l IH]; intros H; simpl; [reflexivity|].
  rewrite (H x) by (now left). f_equal. apply IH. intros y Hy. apply H. now right.
Qed.

Lemma filter_none {X : Type} (p : X -> bool) l :
  (forall x, In x l -> p x = false) -> filter p l = [].
Proof.
  induction l as [|x l IH]; intros H; simpl; [reflexivity|].
  rewrite (H x) by (now left). apply IH. intros y Hy. apply H. now right.
Qed.

Lemma filter_filter {X : Type} (p q : X -> bool) l :
  filter p (filter q l) = filter (fun x => q x && p x) l.
Proof.
  induction l as [|x l IH]; simpl; [reflexivity|].
  destruct (q x); simpl; [destruct (p x)|]; now rewrite IH.
Qed.

Lemma filter_comm {X : Type} (p q : X -> bool) l :
  filter p (filter q l) = filter q (filter p l).
Proof.
  rewrite !filter_filter. apply filter_ext. intros x. apply andb_comm.
Qed.

Lemma acct_sorted_filter (p : Txn.t -> bool) ts :
  StronglySorted acct_le ts -> StronglySorted acct_le (filter p ts).
Proof.
  induction ts as [|t ts IH]; intros Hs; simpl; [constructor|].
  apply StronglySorted_inv in Hs. destruct Hs as [Hr Ht].
  destruct (p t); auto. constructor; auto.
  rewrite Forall_forall in *. intros u Hu. apply filter_In in Hu. now apply Ht.
Qed.

Lemma skip_lower_sorted a ts :
  StronglySorted acct_le ts ->
  skip_lower a ts = filter (not_below (Account.ACCT_ID a)) ts.
Proof.
  induction ts as [|t ts IH]; intros Hs; [reflexivity|].
  apply StronglySorted_inv in Hs. destruct Hs as [Hr Ht].
  cbn [skip_lower filter]. unfold not_below at 1.
  destruct (Txn.ACCT_ID t <? Account.ACCT_ID a)%string eqn:Hlow; cbn [negb].
  - now apply IH.
  - f_equal. symmetry. apply filter_all. intros u Hu.
    rewrite Forall_forall in Ht. specialize (Ht u Hu). unfold acct_le in Ht.
    unfold not_below. apply negb_true_iff.
    eapply ltb_le_trans; eauto.
Qed.

Lemma consume_sorted ts :
  StronglySorted acct_le ts ->
  forall a exc,
    Forall (fun t => not_below (Account.ACCT_ID a) t = true) ts ->
    consume a ts exc
    = (fst (post_all (a, exc) (filter (same (Account.ACCT_ID a)) ts)),
       filter (above (Account.ACCT_ID a)) ts,
       snd (post_all (a, exc) (filter (same (Account.ACCT_ID a)) ts))).
Proof.
  induction ts as [|t ts IH]; intros Hs a exc Hnb; [reflexivity|].
  apply StronglySorted_inv in Hs. destruct Hs as [Hr Ht].
  inversion Hnb as [|? ? Hnt Hnts]; subst.
  cbn [consume filter].
  change (Txn.ACCT_ID t =? Account.ACCT_ID a)%string
    with (same (Account.ACCT_ID a) t).
  destruct (same (Account.ACCT_ID a) t) eqn:Hsame; unfold same in Hsame.
  - apply String.eqb_eq in Hsame.
    assert (Habove : above (Account.ACCT_ID a) t = false)
      by (unfold above; rewrite Hsame; apply ltb_irrefl).
    rewrite Habove.
    destruct (post_txn (a, exc) t) as [a' exc'] eqn:E.
    assert (Hid : Account.ACCT_ID a' = Account.ACCT_ID a).
    { change a' with (fst (a', exc')). rewrite <- E. apply post_txn_id. }
    assert (Hnts' : Forall (fun u => not_below (Account.ACCT_ID a') u = true) ts)
      by (rewrite Hid; exact Hnts).
    rewrite (IH Hr a' exc' Hnts'), Hid.
    unfold post_all. cbn [fold_left]. now rewrite E.
  - apply String.eqb_neq in Hsame.
    assert (Habove : above (Account.ACCT_ID a) t = true).
    { unfold not_below in Hnt. apply negb_true_iff in Hnt. unfold above.
      destruct (ltb_total _ _ Hnt) as [|H]; [congruence|exact H]. }
    rewrite Habove.
    assert (Hrest : forall u, In u ts -> above (Account.ACCT_ID a) u = true).
    { intros u Hu. rewrite Forall_forall in Ht. specialize (Ht u Hu).
      unfold acct_le in Ht. unfold above in *. eapply ltb_lt_le_trans; eauto. }
    rewrite (filter_none (same (Account.ACCT_ID a)) ts).
    + rewrite (filter_all (above (Account.ACCT_ID a)) ts) by exact Hrest.
      reflexivity.
    + intros u Hu. unfold same. apply String.eqb_neq. intros Heq.
      specialize (Hrest u Hu). unfold above in Hrest.
      rewrite Heq, ltb_irrefl in Hrest. discriminate.
Qed.

(** One round of the [for] loop: the current account gets the
    transactions that carry its id, in list order, and the cursor moves
    behind every transaction whose id is not above it. *)
Lemma posting_loop_cons a rest ts exc :
  StronglySorted acct_le ts ->
  posting_loop (a :: rest) ts exc
  = let mine := filter (same (Account.ACCT_ID a)) ts in
    let later := posting_loop rest (filter (above (Account.ACCT_ID a)) ts)
                   (exc ++ rejected a mine) in
    (posted a mine :: fst later, snd later).
Proof.
  intros Hs. cbn [posting_loop]. rewrite skip_lower_sorted by assumption.
  rewrite consume_sorted.
  - rewrite !filter_filter.
    rewrite (filter_ext (fun x => not_below (Account.ACCT_ID a) x
                                  && same (Account.ACCT_ID a) x)
                        (same (Account.ACCT_ID a))).
    + rewrite (filter_ext (fun x => not_below (Account.ACCT_ID a) x
                                    && above (Account.ACCT_ID a) x)
                          (above (Account.ACCT_ID a))).
      * rewrite post_all_exc. cbn [fst snd].
        destruct (posting_loop rest _ _); reflexivity.
      * intros t. unfold not_below, above.
        destruct (Account.ACCT_ID a <? Txn.ACCT_ID t)%string eqn:H;
          [|apply andb_false_r].
        apply ltb_asym in H. now rewrite H.
    + intros t. unfold not_below, same.
      destruct (String.eqb_spec (Txn.ACCT_ID t) (Account.ACCT_ID a)) as [->|];
        [|apply andb_false_r].
      now rewrite ltb_irrefl.
  - now apply acct_sorted_filter.
  - apply Forall_forall. intros t Ht. apply filter_In in Ht. tauto.
Qed.

Lemma posting_loop_nil accs exc :
  posting_loop accs [] exc = (accs, exc).
Proof.
  induction accs as [|a rest IH]; [reflexivity|].
  cbn [posting_loop skip_lower consume]. now rewrite IH.
Qed.

(** The sorted transaction list of a run is in account order. *)
Lemma sorted_txns_acct_sorted txns :
  StronglySorted acct_le (sorted key_lt txn_key txns).
Proof.
  pose proof (sorted_sorted key_lt txn_key key_lt_asym key_lt_le_trans txns) as Hs.
  induction Hs as [|t ts Hs IH Ht]; constructor; auto.
  rewrite Forall_forall in *. intros u Hu.
  apply key_le_acct. now apply Ht.
Qed.

End MergeLoop.

(** ** Whole runs *)

Section Runs.

Lemma run_posting_eq accs txns :
  run_posting accs txns = posting_loop (sorted_accounts accs) (sorted_txns txns) [].
Proof. reflexivity. Qed.

(** Transactions on which [post_txn] does nothing can be taken out of the
    sorted list without any effect on the loop ... *)
Lemma posting_loop_filter (p : Txn.t -> bool) :
  (forall st t, p t = false -> post_txn st t = st) ->
  forall accs ts exc,
    StronglySorted acct_le ts ->
    posting_loop accs (filter p ts) exc = posting_loop accs ts exc.
Proof.
  intros Hp. induction accs as [|a rest IH]; intros ts exc Hs; [reflexivity|].
  rewrite !posting_loop_cons by (auto using acct_sorted_filter). cbv zeta.
  rewrite !(filter_comm _ p).
  unfold posted, rejected. rewrite !(post_all_filter p Hp).
  rewrite IH by (now apply acct_sorted_filter). reflexivity.
Qed.

(** ... and out of the input of the run. *)
Lemma run_posting_filter (p : Txn.t -> bool) :
  (forall st t, p t = false -> post_txn st t = st) ->
  forall accs txns, run_posting accs (filter p txns) = run_posting accs txns.
Proof.
  intros Hp accs txns. rewrite !run_posting_eq. unfold sorted_txns.
  rewrite (sorted_filter key_lt txn_key key_lt_asym key_lt_le_trans).
  apply posting_loop_filter; [assumption|apply sorted_txns_acct_sorted].
Qed.

Lemma post_txn_rejects a t :
  snd (post_txn (a, []) t) = []
  \/ (snd (post_txn (a, []) t) = [t] /\ refused t
      /\ fst (post_txn (a, []) t) = a
      /\ Account.CURR_BAL a - Txn.AMOUNT t < - Account.OD_LIMIT a).
Proof.
  unfold refused, on_today, post_txn.
  destruct (yyyymmdd_from_ts (Txn.TS t) =? TODAY); auto.
  destruct (_ || _); auto.
  destruct (Txn.CODE t =? "REV ")%string; auto.
  destruct (String.eqb_spec (Txn.CODE t) "WDRW"); auto.
  destruct (Z.geb_spec (Account.CURR_BAL a - Txn.AMOUNT t) (0 - Account.OD_LIMIT a));
    auto.
Qed.

Lemma rejected_refused l : forall a, Forall refused (rejected a l).
Proof.
  induction l as [|t l IH]; intros a; [constructor|].
  rewrite rejected_cons. apply Forall_app. split; [|apply IH].
  unfold rejected, post_all. cbn [fold_left].
  destruct (post_txn_rejects a t) as [->|(-> & H & _)]; [constructor|].
  constructor; [exact H|constructor].
Qed.

Lemma posting_loop_refused accs : forall ts exc,
  StronglySorted acct_le ts ->
  Forall refused exc -> Forall refused (snd (posting_loop accs ts exc)).
Proof.
  induction accs as [|a rest IH]; intros ts exc Hs Hexc; [assumption|].
  rewrite posting_loop_cons by assumption. cbv zeta. cbn [snd].
  apply IH; [now apply acct_sorted_filter|].
  apply Forall_app. split; [assumption|apply rejected_refused].
Qed.

Lemma run_posting_refused accs txns : Forall refused (snd (run_posting accs txns)).
Proof.
  rewrite run_posting_eq.
  apply posting_loop_refused; [apply sorted_txns_acct_sorted|constructor].
Qed.

(** Accounts keep their place in the sorted list and everything but the
    balance. *)
Lemma posting_loop_frame accs : forall ts exc,
  StronglySorted acct_le ts ->
  Forall2 (fun a a' => frame a' = frame a) accs (fst (posting_loop accs ts exc)).
Proof.
  induction accs as [|a rest IH]; intros ts exc Hs; [constructor|].
  rewrite posting_loop_cons by assumption. cbv zeta. cbn [fst].
  constructor; [apply posted_frame|].
  apply IH. now apply acct_sorted_filter.
Qed.

End Runs.

(** ** Which transactions reach which account *)

Section Accounts.

Lemma sorted_accounts_sorted accs : StronglySorted acc_le (sorted_accounts accs).
Proof. apply sorted_sorted; [apply ltb_asym|apply ltb_le_trans]. Qed.

Lemma existsb_false {X : Type} (p : X -> bool) l :
  existsb p l = false -> forall x, In x l -> p x = false.
Proof.
  intros H x Hx. destruct (p x) eqn:Hp; auto.
  rewrite <- H. symmetry. apply existsb_exists. eauto.
Qed.

Lemma posting_loop_each ts :
  StronglySorted acct_le ts ->
  forall accs seen exc,
    StronglySorted acc_le accs ->
    (forall s a, In s seen -> In a accs -> (Account.ACCT_ID a <? s)%string = false) ->
    fst (posting_loop accs (filter (beyond seen) ts) exc) = post_each seen accs ts.
Proof.
  intros Hts. induction accs as [|a rest IH]; intros seen exc Hs Hseen;
    [reflexivity|].
  apply StronglySorted_inv in Hs. destruct Hs as [Hrest Ha].
  rewrite posting_loop_cons by (now apply acct_sorted_filter).
  cbv zeta. cbn [fst post_each]. f_equal.
  - rewrite filter_filter.
    destruct (existsb (String.eqb (Account.ACCT_ID a)) seen) eqn:Hex.
    + apply existsb_exists in Hex. destruct Hex as (s & Hs & Heq).
      apply String.eqb_eq in Heq. subst s.
      rewrite filter_none; [reflexivity|].
      intros t _. unfold same, beyond.
      destruct (String.eqb_spec (Txn.ACCT_ID t) (Account.ACCT_ID a)) as [->|];
        [|apply andb_false_r].
      rewrite andb_true_r.
      destruct (forallb _ seen) eqn:Hall; [|reflexivity].
      rewrite forallb_forall in Hall. specialize (Hall _ Hs).
      now rewrite ltb_irrefl in Hall.
    + f_equal. apply filter_ext. intros t. unfold same, beyond.
      destruct (String.eqb_spec (Txn.ACCT_ID t) (Account.ACCT_ID a)) as [->|];
        [|apply andb_false_r].
      rewrite andb_true_r. apply forallb_forall. intros s Hs.
      pose proof (existsb_false _ _ Hex s Hs) as Hne.
      apply String.eqb_neq in Hne.
      destruct (ltb_total _ _ (Hseen s a Hs (or_introl eq_refl))) as [|H];
        [congruence|exact H].
  - rewrite filter_filter.
    rewrite (filter_ext _ (beyond (Account.ACCT_ID a :: seen)))
      by (intros t; unfold beyond, above; cbn [forallb]; apply andb_comm).
    apply IH; [assumption|].
    intros s b [<-|Hs] Hb.
    + rewrite Forall_forall in Ha. exact (Ha b Hb).
    + apply Hseen; [assumption|now right].
Qed.

(** The updated accounts of a run. *)
Lemma run_posting_accounts accs txns :
  fst (run_posting accs txns)
  = post_each [] (sorted_accounts accs) (sorted_txns txns).
Proof.
  rewrite run_posting_eq.
  rewrite <- (filter_all (beyond []) (sorted_txns txns)) at 1
    by reflexivity.
  apply posting_loop_each.
  - apply sorted_txns_acct_sorted.
  - apply sorted_accounts_sorted.
  - intros s a [].
Qed.

(** With account ids used once, as the data model has them, every
    account gets the transactions of its id. *)
Lemma post_each_unique ts accs : forall seen,
  NoDup (map Account.ACCT_ID accs) ->
  (forall a, In a accs -> ~ In (Account.ACCT_ID a) seen) ->
  post_each seen accs ts
  = map (fun a => posted a (filter (same (Account.ACCT_ID a)) ts)) accs.
Proof.
  induction accs as [|a rest IH]; intros seen Hnd Hseen; [reflexivity|].
  cbn [map] in Hnd. apply NoDup_cons_iff in Hnd. destruct Hnd as [Hna Hnd].
  cbn [post_each map]. f_equal.
  - destruct (existsb _ seen) eqn:Hex; [|reflexivity].
    apply existsb_exists in Hex. destruct Hex as (s & Hs & Heq).
    apply String.eqb_eq in Heq. subst s.
    exfalso. apply (Hseen a); [now left|assumption].
  - apply IH; [assumption|].
    intros b Hb [Heq|Hin].
    + apply Hna. rewrite Heq. now apply in_map.
    + apply (Hseen b); [now right|assumption].
Qed.

Lemma run_posting_unique accs txns a :
  NoDup (map Account.ACCT_ID accs) ->
  In a accs ->
  In (posted a (applied (Account.ACCT_ID a) txns)) (fst (run_posting accs txns)).
Proof.
  intros Hnd Ha. rewrite run_posting_accounts.
  pose proof (sorted_perm String.ltb Account.ACCT_ID accs) as Hperm.
  fold (sorted_accounts accs) in Hperm.
  rewrite post_each_unique.
  - apply (in_map (fun a => posted a (filter (same (Account.ACCT_ID a))
                                        (sorted_txns txns)))).
    eapply Permutation_in; eauto.
  - eapply Permutation_NoDup; [|exact Hnd]. now apply Permutation_map.
  - intros b _ [].
Qed.

End Accounts.

(** ** The posting engine: claims *)

Section Overdraft.

(** A posting that does not lower the balance without guard keeps an
    account within its limit: a deposit, fee or interest with an amount of
    at least zero and a reversal with an amount of at most zero raise the
    balance or leave it, a withdrawal is guarded, anything else is
    ignored. *)
Lemma post_txn_guarded a t :
  0 <= unguarded_amount t -> within_limit a -> within_limit (posted a [t]).
Proof.
  unfold unguarded_amount, on_today, within_limit, posted, post_all.
  cbn [fold_left]. unfold post_txn.
  destruct (yyyymmdd_from_ts (Txn.TS t) =? TODAY); cbn [fst]; auto.
  destruct ((Txn.CODE t =? "DEPO") || (Txn.CODE t =? "FEE ")
            || (Txn.CODE t =? "INT "))%string;
    [cbn [fst Account.set_CURR_BAL Account.CURR_BAL Account.OD_LIMIT];
     intros; lia|].
  destruct (Txn.CODE t =? "REV ")%string;
    [cbn [fst Account.set_CURR_BAL Account.CURR_BAL Account.OD_LIMIT];
     intros; lia|].
  destruct (Txn.CODE t =? "WDRW")%string; cbn [fst]; auto.
  destruct (Z.geb_spec (Account.CURR_BAL a - Txn.AMOUNT t) (0 - Account.OD_LIMIT a));
    cbn [fst Account.set_CURR_BAL Account.CURR_BAL Account.OD_LIMIT]; auto;
    intros; lia.
Qed.

Lemma posted_guarded l : forall a,
  Forall (fun u => 0 <= unguarded_amount u) l ->
  within_limit a -> within_limit (posted a l).
Proof.
  induction l as [|t l IH]; intros a Hl Ha; [exact Ha|].
  inversion Hl; subst. rewrite posted_cons.
  apply IH; [assumption|]. now apply post_txn_guarded.
Qed.

Lemma post_txn_withdraw a t :
  on_today t = true -> Txn.CODE t = "WDRW"%string ->
  - Account.OD_LIMIT a <= Account.CURR_BAL a - Txn.AMOUNT t ->
  within_limit (posted a [t]).
Proof.
  unfold on_today, within_limit, posted, post_all. cbn [fold_left].
  unfold post_txn. intros -> -> Hg.
  change ("WDRW" =? "DEPO")%string with false.
  change ("WDRW" =? "FEE ")%string with false.
  change ("WDRW" =? "INT ")%string with false.
  change ("WDRW" =? "REV ")%string with false.
  change ("WDRW" =? "WDRW")%string with true. cbv iota. cbn [orb].
  destruct (Z.geb_spec (Account.CURR_BAL a - Txn.AMOUNT t) (0 - Account.OD_LIMIT a));
    cbn [fst Account.set_CURR_BAL Account.CURR_BAL Account.OD_LIMIT]; lia.
Qed.

End Overdraft.

(** C2, as stated, fails: account A001 (balance 100.00, limit 50.00) has a
    withdrawal of 10.00 committed and then a reversal of 200.00 on the
    same day; its balance changed via a withdrawal and ends at -110.00,
    below -50.00. *)
Lemma C2_counterexample :
  let w := txn "A001" "T1" "WDRW" 1000 20250101090000 in
  let r := txn "A001" "T2" "REV " 20000 20250101100000 in
  run_posting [acct_A001] [w; r]
  = ([Account.set_CURR_BAL acct_A001 (-11000)], [])
  /\ posted acct_A001 [w] = Account.set_CURR_BAL acct_A001 9000
  /\ ~ within_limit (Account.set_CURR_BAL acct_A001 (-11000)).
Proof.
  repeat split; try (vm_compute; congruence).
Qed.

(** C2, amended.  A withdrawal is committed only if it leaves the balance
    at or above [-odLimit]; later withdrawals keep it there, and so do the
    later postings without guard that do not lower the balance: deposits,
    fees and interests with an amount of at least zero, reversals with an
    amount of at most zero.  So after a run, every account that had a
    withdrawal committed, with no balance-lowering posting without guard
    of the as-of date applied after it (a reversal above all), ends with
    [balance >= -odLimit].  Nothing is asserted once such a debit follows
    the withdrawal.  (Account ids are unique keys.) *)
Theorem C2_overdraft_guard accs txns a l1 t l2 :
  NoDup (map Account.ACCT_ID accs) ->
  In a accs ->
  applied (Account.ACCT_ID a) txns = l1 ++ t :: l2 ->
  on_today t = true ->
  Txn.CODE t = "WDRW"%string ->
  - Account.OD_LIMIT a <= Account.CURR_BAL (posted a l1) - Txn.AMOUNT t ->
  Forall (fun u => 0 <= unguarded_amount u) l2 ->
  let a' := posted a (applied (Account.ACCT_ID a) txns) in
  In a' (fst (run_posting accs txns))
  /\ - Account.OD_LIMIT a' <= Account.CURR_BAL a'.
Proof.
  intros Hnd Ha Happ Hday Hcode Hguard Hl2 a'. split.
  - now apply run_posting_unique.
  - unfold a'. rewrite Happ.
    change (l1 ++ t :: l2) with (l1 ++ [t] ++ l2).
    rewrite !posted_app.
    apply posted_guarded; [assumption|].
    apply post_txn_withdraw; auto.
    pose proof (posted_frame l1 a) as Hf. unfold frame in Hf.
    assert (Hod : Account.OD_LIMIT (posted a l1) = Account.OD_LIMIT a)
      by congruence.
    now rewrite Hod.
Qed.

Lemma C2_overdraft_guard_witness :
  let w := txn "A001" "T1" "WDRW" 1000 20250101090000 in
  let d := txn "A001" "T2" "DEPO" 500 20250101100000 in
  let f := txn "A001" "T3" "FEE " 0 20250101110000 in
  let a' := posted acct_A001 (applied "A001" [f; d; w]) in
  In a' (fst (run_posting [acct_A001] [f; d; w]))
  /\ - Account.OD_LIMIT a' <= Account.CURR_BAL a'.
Proof.
  intros w d f.
  apply (C2_overdraft_guard [acct_A001] [f; d; w] acct_A001 [] w [d; f]).
  - repeat constructor. simpl. tauto.
  - now left.
  - reflexivity.
  - reflexivity.
  - reflexivity.
  - vm_compute. congruence.
  - repeat constructor; vm_compute; congruence.
Defined.

(** C5, as stated, fails: a transaction of the as-of date with the code
    [XXXX] on account A001 changes nothing and is put in no output; the
    result is the one of a run without any transaction. *)
Lemma C5_counterexample :
  let t := txn "A001" "T1" "XXXX" 20000 20250101090000 in
  on_today t = true
  /\ known_code t = false
  /\ run_posting [acct_A001] [t] = ([acct_A001], [])
  /\ run_posting [acct_A001] [t] = run_posting [acct_A001] [].
Proof. repeat split; vm_compute; reflexivity. Qed.

(** C5, amended.  A consumed transaction whose code is none of the known
    codes has no effect on any balance and is silently ignored: both
    outputs of a run are the ones of the run without these transactions,
    and the exception list holds withdrawals only, so no output tells that
    the transaction was there. *)
Theorem C5_unknown_code_ignored accs txns :
  run_posting accs txns = run_posting accs (filter known_code txns)
  /\ Forall (fun t => Txn.CODE t = "WDRW"%string) (snd (run_posting accs txns)).
Proof.
  split.
  - symmetry. apply run_posting_filter. intros st t. apply post_txn_unknown.
  - eapply Forall_impl; [|apply run_posting_refused].
    intros t [_ H]. exact H.
Qed.

(** C6.  Application order.  Whatever the order of the input, the engine
    walks the transactions in ascending [(ACCT_ID, TS, TXN_ID)] order:
    each account (the first one, should an id be repeated) receives the
    transactions of its id one after the other in the order of
    [applied id txns], which holds exactly the transactions of that id,
    earlier timestamps first and equal timestamps by ascending
    transaction id. *)
Theorem C6_application_order accs txns :
  fst (run_posting accs txns)
  = post_each [] (sorted_accounts accs) (sorted_txns txns)
  /\ Permutation txns (sorted_txns txns)
  /\ StronglySorted (key_le key_lt txn_key) (sorted_txns txns)
  /\ forall id,
       Permutation (filter (same id) txns) (applied id txns)
       /\ StronglySorted ts_id_le (applied id txns).
Proof.
  split; [apply run_posting_accounts|].
  split; [apply sorted_perm|].
  split; [apply sorted_sorted; [apply key_lt_asym|apply key_lt_le_trans]|].
  intros id. unfold applied, sorted_txns. split.
  - rewrite <- (sorted_filter key_lt txn_key key_lt_asym key_lt_le_trans).
    apply sorted_perm.
  - pose proof (sorted_sorted key_lt txn_key key_lt_asym key_lt_le_trans txns)
      as Hs.
    induction Hs as [|t ts Hs IH Ht]; [constructor|].
    cbn [filter]. destruct (same id t) eqn:Hid; [|exact IH].
    constructor; [exact IH|].
    rewrite Forall_forall in *. intros u Hu.
    apply filter_In in Hu. destruct Hu as [Hu Hidu].
    apply key_le_same_acct; [now apply Ht|].
    unfold same in *. apply String.eqb_eq in Hid, Hidu. congruence.
Qed.

(** C7.  Off-date transactions.  A transaction whose date differs from
    the as-of date leaves the account and the exception list of the moment
    untouched; a run gives the same accounts and the same exceptions as the
    run without these transactions, and no such transaction is listed as
    an exception. *)
Theorem C7_off_date_ignored accs txns :
  (forall st t, post_txn st t = if on_today t then post_txn st t else st)
  /\ run_posting accs txns = run_posting accs (filter on_today txns)
  /\ Forall (fun t => on_today t = true) (snd (run_posting accs txns)).
Proof.
  split; [|split].
  - intros st t. destruct (on_today t) eqn:H; [reflexivity|].
    now apply post_txn_off_date.
  - symmetry. apply run_posting_filter. intros st t. apply post_txn_off_date.
  - eapply Forall_impl; [|apply run_posting_refused].
    intros t [H _]. exact H.
Qed.

Lemma sorted_map_ids l :
  StronglySorted acc_le l ->
  StronglySorted (fun s t => (s <=? t)%string = true) (map Account.ACCT_ID l).
Proof.
  induction 1 as [|a l Hs IH Ha]; cbn [map]; constructor; auto.
  apply Forall_map. eapply Forall_impl; [|exact Ha].
  intros b Hb. unfold acc_le, key_le in Hb. now rewrite leb_ltb, Hb.
Qed.

Lemma frame_ids l l' :
  Forall2 (fun a a' => frame a' = frame a) l l' ->
  map Account.ACCT_ID l' = map Account.ACCT_ID l.
Proof.
  induction 1 as [|a a' l l' Hf _ IH]; [reflexivity|].
  cbn [map]. rewrite IH. f_equal. unfold frame in Hf. congruence.
Qed.

(** C8.  Frame of a run.  The accounts come back in ascending account-id
    order; they are the input accounts, none added and none dropped: the
    output pairs off with a rearrangement of the input such that paired
    accounts agree on ACCT_ID, CUST_ID, PRODUCT, STATUS, OD_LIMIT, OPEN_DATE
    and CLOSE_DATE, the balance being the only field that can differ. *)
Theorem C8_posting_frame accs txns :
  let out := fst (run_posting accs txns) in
  StronglySorted (fun s t => (s <=? t)%string = true) (map Account.ACCT_ID out)
  /\ Permutation (map Account.ACCT_ID accs) (map Account.ACCT_ID out)
  /\ exists arranged,
       Permutation accs arranged
       /\ Forall2 (fun a a' =>
                     Account.ACCT_ID a' = Account.ACCT_ID a
                     /\ Account.CUST_ID a' = Account.CUST_ID a
                     /\ Account.PRODUCT a' = Account.PRODUCT a
                     /\ Account.STATUS a' = Account.STATUS a
                     /\ Account.OD_LIMIT a' = Account.OD_LIMIT a
                     /\ Account.OPEN_DATE a' = Account.OPEN_DATE a
                     /\ Account.CLOSE_DATE a' = Account.CLOSE_DATE a)
                  arranged out.
Proof.
  intros out.
  assert (Hf : Forall2 (fun a a' => frame a' = frame a) (sorted_accounts accs) out).
  { unfold out. rewrite run_posting_eq.
    apply posting_loop_frame, sorted_txns_acct_sorted. }
  pose proof (frame_ids _ _ Hf) as Hids.
  pose proof (sorted_perm String.ltb Account.ACCT_ID accs) as Hperm.
  fold (sorted_accounts accs) in Hperm.
  split; [|split].
  - rewrite Hids. apply sorted_map_ids, sorted_accounts_sorted.
  - rewrite Hids. now apply Permutation_map.
  - exists (sorted_accounts accs). split; [assumption|].
    eapply Forall2_impl; [|exact Hf].
    intros a a' H. unfold frame in H. injection H as -> -> -> -> -> -> ->.
    repeat split.
Qed.

(** C9.  Running twice is not running once: a second run over the
    accounts of the first, with the same transactions, posts the deposit
    of 5.00 again and moves A002 from 15.00 to 20.00. *)
Theorem C9_not_idempotent :
  exists accs txns,
    fst (run_posting accs txns) = [Account.set_CURR_BAL acct_A002 1500]
    /\ fst (run_posting (fst (run_posting accs txns)) txns)
       = [Account.set_CURR_BAL acct_A002 2000]
    /\ fst (run_posting (fst (run_posting accs txns)) txns)
       <> fst (run_posting accs txns).
Proof.
  exists [acct_A002], [txn "A002" "T1" "DEPO" 500 20250101090000].
  repeat split; vm_compute; congruence.
Qed.

(** ** The exception list keeps the encounter order *)

Section EncounterOrder.

Lemma subseq_nil_l {X : Type} (l : list X) : subseq [] l.
Proof. induction l; constructor; auto. Qed.

Lemma subseq_refl {X : Type} (l : list X) : subseq l l.
Proof. induction l; [apply subseq_nil|now apply subseq_keep]. Qed.

Lemma subseq_app {X : Type} (l1 l1' l2 l2' : list X) :
  subseq l1 l1' -> subseq l2 l2' -> subseq (l1 ++ l2) (l1' ++ l2').
Proof.
  intros H1 H2. induction H1; cbn [List.app].
  - exact H2.
  - now apply subseq_skip.
  - now apply subseq_keep.
Qed.

Lemma subseq_filter {X : Type} (p : X -> bool) (l : list X) :
  subseq (filter p l) l.
Proof.
  induction l as [|x l IH]; cbn [filter]; [constructor|].
  destruct (p x); [now apply subseq_keep|now apply subseq_skip].
Qed.

Lemma subseq_trans {X : Type} (l1 l2 l3 : list X) :
  subseq l1 l2 -> subseq l2 l3 -> subseq l1 l3.
Proof.
  intros H12 H23. revert l1 H12.
  induction H23 as [|x l2 l3 H IH|x l2 l3 H IH]; intros l1 H12.
  - exact H12.
  - apply subseq_skip. auto.
  - inversion H12; subst; [apply subseq_skip|apply subseq_keep]; auto.
Qed.

Lemma rejected_subseq l : forall a, subseq (rejected a l) l.
Proof.
  induction l as [|t l IH]; intros a; [constructor|].
  rewrite rejected_cons.
  change (t :: l) with ([t] ++ l).
  apply subseq_app; [|apply IH].
  unfold rejected, post_all. cbn [fold_left].
  destruct (post_txn_rejects a t) as [->|(-> & _)].
  - apply subseq_nil_l.
  - apply subseq_refl.
Qed.

(** A list in account order is made of the transactions below an id,
    then the ones of that id, then the ones above it. *)
Lemma acct_sorted_split id ts :
  StronglySorted acct_le ts ->
  ts = filter (below id) ts ++ filter (same id) ts ++ filter (above id) ts.
Proof.
  induction ts as [|t ts IH]; intros Hs; [reflexivity|].
  apply StronglySorted_inv in Hs. destruct Hs as [Hr Ht].
  specialize (IH Hr). rewrite Forall_forall in Ht. unfold acct_le in Ht.
  cbn [filter]. unfold below at 1, same at 1, above at 1.
  destruct (Txn.ACCT_ID t <? id)%string eqn:Hlow.
  - rewrite (ltb_asym _ _ Hlow).
    destruct (String.eqb_spec (Txn.ACCT_ID t) id) as [Heq|_].
    + rewrite Heq, ltb_irrefl in Hlow. discriminate.
    + cbn [List.app]. now rewrite <- IH.
  - assert (Hnone : filter (below id) ts = []).
    { apply filter_none. intros u Hu. unfold below.
      eapply ltb_le_trans; [exact Hlow|exact (Ht u Hu)]. }
    rewrite Hnone in *. cbn [List.app] in *.
    destruct (String.eqb_spec (Txn.ACCT_ID t) id) as [Heq|Hne].
    + subst id. rewrite ltb_irrefl. cbn [List.app]. now rewrite <- IH.
    + destruct (ltb_total _ _ Hlow) as [|Habove]; [congruence|].
      rewrite Habove.
      assert (Hsame : filter (same id) ts = []).
      { apply filter_none. intros u Hu. unfold same. apply String.eqb_neq.
        intros Heq. pose proof (Ht u Hu) as Hu'.
        rewrite Heq in Hu'. congruence. }
      rewrite Hsame in *. cbn [List.app] in *. now rewrite <- IH.
Qed.

Lemma posting_loop_subseq accs : forall ts exc,
  StronglySorted acct_le ts ->
  exists more,
    snd (posting_loop accs ts exc) = exc ++ more /\ subseq more ts.
Proof.
  induction accs as [|a rest IH]; intros ts exc Hs.
  - exists []. split; [now rewrite List.app_nil_r|apply subseq_nil_l].
  - rewrite posting_loop_cons by assumption. cbv zeta. cbn [snd].
    destruct (IH (filter (above (Account.ACCT_ID a)) ts)
                 (exc ++ rejected a (filter (same (Account.ACCT_ID a)) ts)))
      as (more & Hmore & Hsub); [now apply acct_sorted_filter|].
    exists (rejected a (filter (same (Account.ACCT_ID a)) ts) ++ more).
    split; [now rewrite Hmore, List.app_assoc|].
    rewrite (acct_sorted_split (Account.ACCT_ID a) ts Hs) at 2.
    change (rejected a (filter (same (Account.ACCT_ID a)) ts) ++ more)
      with ([] ++ rejected a (filter (same (Account.ACCT_ID a)) ts) ++ more).
    apply subseq_app; [apply subseq_nil_l|].
    apply subseq_app; [apply rejected_subseq|assumption].
Qed.

(** The rejected transactions of a run stand in the exception list in the
    order in which the engine met them in the sorted transaction list. *)
Lemma exceptions_in_encounter_order accs txns :
  subseq (snd (run_posting accs txns)) (sorted_txns txns).
Proof.
  rewrite run_posting_eq.
  destruct (posting_loop_subseq (sorted_accounts accs) (sorted_txns txns) [])
    as (more & -> & Hsub); [apply sorted_txns_acct_sorted|exact Hsub].
Qed.

End EncounterOrder.

(** ** Rejected withdrawals and the exceptions file *)

(** The rounds of [read_txns] never run out before the short read: more
    rounds than the length of the file change nothing. *)
Lemma read_txns_loop_enough n : forall file m,
  (List.length file <= n)%nat -> (n <= m)%nat ->
  read_txns_loop m file = read_txns_loop n file.
Proof.
  induction n as [|n IH]; intros file m Hlen Hm.
  - destruct file; [|simpl in Hlen; lia].
    destruct m; reflexivity.
  - destruct m as [|m]; [lia|]. cbn [read_txns_loop].
    destruct (Z.of_nat (List.length (firstn 72 file)) <? TXN_REC_LEN) eqn:Hshort;
      [reflexivity|].
    rewrite (IH (skipn 72 file) m); [reflexivity| |lia].
    rewrite length_skipn.
    apply Z.ltb_ge in Hshort. rewrite length_firstn in Hshort.
    unfold TXN_REC_LEN in Hshort. lia.
Qed.

(** A withdrawal of the as-of date that fails the guard leaves the account
    as it is and goes, as the very dictionary that was read (raw bytes
    included), to the end of the exception list. *)
Lemma rejected_withdrawal_kept a exc t :
  on_today t = true ->
  Txn.CODE t = "WDRW"%string ->
  Account.CURR_BAL a - Txn.AMOUNT t < - Account.OD_LIMIT a ->
  post_txn (a, exc) t = (a, exc ++ [t]).
Proof.
  unfold on_today, post_txn. intros -> -> Hg.
  change ("WDRW" =? "DEPO")%string with false.
  change ("WDRW" =? "FEE ")%string with false.
  change ("WDRW" =? "INT ")%string with false.
  change ("WDRW" =? "REV ")%string with false.
  change ("WDRW" =? "WDRW")%string with true. cbv iota. cbn [orb].
  destruct (Z.geb_spec (Account.CURR_BAL a - Txn.AMOUNT t) (0 - Account.OD_LIMIT a));
    [lia|reflexivity].
Qed.

(** C3 on the record of scenario A with the sign nibble 0xF (positive, as
    [unpack_comp3] reads it).  The withdrawal is refused, the balance of
    A001 stays at 100.00 and the transaction is listed with its raw bytes;
    but [write_exceptions] packs the amount anew and writes the sign
    nibble 0xC: the record in the exceptions file is not the record that
    was read. *)
Theorem C3_exception_not_byte_identical :
  exists t out,
    read_txns (scenario_A_record x0f) = Ok [t]
    /\ Txn.RAW t = scenario_A_record x0f
    /\ run_posting [acct_A001] [t] = ([acct_A001], [t])
    /\ write_exceptions [t] = Ok out
    /\ out = scenario_A_record x0c
    /\ out <> Txn.RAW t.
Proof.
  eexists. eexists.
  split; [vm_compute; reflexivity|].
  split; [vm_compute; reflexivity|].
  split; [vm_compute; reflexivity|].
  split; [vm_compute; reflexivity|].
  split; [vm_compute; reflexivity|].
  vm_compute. discriminate.
Qed.

Example exception_record_canonical :
  exists t,
    read_txns (scenario_A_record x0c) = Ok [t]
    /\ write_exceptions [t] = Ok (scenario_A_record x0c).
Proof. eexists. split; vm_compute; reflexivity. Qed.

(** * Further properties of the scripts *)

(** ** Decoding arbitrary bytes *)

Section UnpackAnyBytes.

Lemma string_of_uint_app d : forall d',
  exists d'', (NilEmpty.string_of_uint d ++ NilEmpty.string_of_uint d')%string
              = NilEmpty.string_of_uint d''.
Proof.
  induction d; intros d'; cbn [NilEmpty.string_of_uint String.append];
    try (destruct (IHd d') as [d'' ->]).
  - now exists d'.
  - now exists (D0 d'').
  - now exists (D1 d'').
  - now exists (D2 d'').
  - now exists (D3 d'').
  - now exists (D4 d'').
  - now exists (D5 d'').
  - now exists (D6 d'').
  - now exists (D7 d'').
  - now exists (D8 d'').
  - now exists (D9 d'').
Qed.

(** The strings of non-negative numbers join into a digit string. *)
Lemma join_str_digits l :
  Forall (fun x => 0 <= x) l ->
  exists d, Py.join (map Py.str l) = NilEmpty.string_of_uint d.
Proof.
  induction 1 as [|x l Hx _ [d IH]]; cbn [map].
  - now exists Nil.
  - rewrite join_cons, IH, (str_nonneg x Hx). apply string_of_uint_app.
Qed.

Lemma land_15_nibble x : 0 <= x -> is_nibble (Z.land x 15).
Proof.
  intros Hx. unfold is_nibble. change 15 with (Z.ones 4).
  rewrite Z.land_ones by lia. apply Z.mod_pos_bound. lia.
Qed.

Lemma nibbles_of_bytes_nibbles b : Forall is_nibble (nibbles_of_bytes b).
Proof.
  assert (Hb : forall x, 0 <= Py.int_of_byte x) by (intros x; unfold Py.int_of_byte; lia).
  induction b as [|x b IH]; [constructor|].
  rewrite nibbles_of_bytes_cons. apply Forall_app. split; [|exact IH].
  cbn [nibbles_of_bytes flat_map List.app].
  constructor; [|constructor; [|constructor]].
  - apply land_15_nibble, Z.shiftr_nonneg, Hb.
  - apply land_15_nibble, Hb.
Qed.

(** A non-empty byte string ends with the low nibble of its last byte. *)
Lemma nibbles_of_bytes_snoc b x :
  exists l,
    nibbles_of_bytes (b ++ [x]) = l ++ [Z.land (Py.int_of_byte x) 15]
    /\ Forall is_nibble l.
Proof.
  exists (nibbles_of_bytes b ++ [Z.land (Z.shiftr (Py.int_of_byte x) 4) 15]).
  split.
  - unfold nibbles_of_bytes. rewrite flat_map_app. cbn [flat_map].
    rewrite <- List.app_assoc. reflexivity.
  - pose proof (nibbles_of_bytes_nibbles (b ++ [x])) as H.
    unfold nibbles_of_bytes in *. rewrite flat_map_app in H.
    apply Forall_app in H. destruct H as [H1 H2]. apply Forall_app. split; auto.
    cbn [flat_map List.app] in H2. inversion H2; subst.
    constructor; [assumption|constructor].
Qed.

Lemma of_uint_nonneg d : 0 <= Z.of_uint d.
Proof. unfold Z.of_uint. lia. Qed.

(** What [unpack_comp3] returns on the nibbles [l] followed by the sign
    nibble [s]. *)
Lemma unpack_digits_sign b l s :
  nibbles_of_bytes b = l ++ [s] ->
  Forall is_nibble l ->
  exists d,
    Py.join (map Py.str l) = NilEmpty.string_of_uint d
    /\ unpack_comp3 b
       = Ok (if s =? 13 then - Z.of_uint (unorm d) else Z.of_uint (unorm d)).
Proof.
  intros Hb Hl.
  destruct (join_str_digits l) as [d Hd].
  { eapply Forall_impl; [|exact Hl]. unfold is_nibble. intros; lia. }
  exists d. split; [exact Hd|].
  unfold unpack_comp3. rewrite Hb, pop_snoc. cbn [bind].
  rewrite Hd, lstrip_zero_or, int_uint by apply unorm_nonnil.
  reflexivity.
Qed.

End UnpackAnyBytes.

(** X1.  [unpack_comp3] raises on the empty byte string only, and then
    [IndexError]; on every other input, decimal or not, it returns a
    value, which is at most zero when the low nibble of the last byte is
    0xD and at least zero for any other sign nibble. *)
Theorem X1_unpack_total_and_sign (b : list byte) :
  match unpack_comp3 b with
  | Ok v =>
      b <> []
      /\ (if Z.land (Py.int_of_byte (List.last b x00)) 15 =? 13
          then v <= 0 else 0 <= v)
  | Raise e => e = IndexError /\ b = []
  end.
Proof.
  induction b as [|x0 b0 _] using rev_ind; [split; reflexivity|].
  destruct (nibbles_of_bytes_snoc b0 x0) as (l & Hb & Hl).
  destruct (unpack_digits_sign _ _ _ Hb Hl) as (d & _ & ->).
  split; [now destruct b0|].
  rewrite last_last.
  pose proof (of_uint_nonneg (unorm d)).
  destruct (_ =? 13); lia.
Qed.

(** X2.  Zero bytes in front of a packed field do not change what it
    decodes to. *)
Theorem X2_unpack_leading_zero_bytes (b0 : byte) (b : list byte) :
  unpack_comp3 (x00 :: b0 :: b) = unpack_comp3 (b0 :: b).
Proof.
  destruct (exists_last (l := b0 :: b)) as (b' & x & Hb); [discriminate|].
  rewrite Hb.
  destruct (nibbles_of_bytes_snoc b' x) as (l & Hn & Hl).
  destruct (unpack_digits_sign _ _ _ Hn Hl) as (d & Hd & ->).
  assert (Hn0 : nibbles_of_bytes (x00 :: b' ++ [x])
                = (0 :: 0 :: l) ++ [Z.land (Py.int_of_byte x) 15]).
  { rewrite nibbles_of_bytes_cons, Hn. reflexivity. }
  assert (Hl0 : Forall is_nibble (0 :: 0 :: l))
    by (repeat constructor; auto; unfold is_nibble; lia).
  destruct (unpack_digits_sign _ _ _ Hn0 Hl0) as (d0 & Hd0 & ->).
  cbn [map] in Hd0. rewrite !join_cons, Hd in Hd0.
  change (Py.str 0 ++ Py.str 0 ++ NilEmpty.string_of_uint d)%string
    with (NilEmpty.string_of_uint (D0 (D0 d))) in Hd0.
  assert (Heq : d0 = D0 (D0 d)).
  { apply (f_equal NilEmpty.uint_of_string) in Hd0.
    rewrite !NilEmpty.usu in Hd0. congruence. }
  now rewrite Heq, !unorm_D0.
Qed.

(** X3.  Two values never share an encoding, whatever the widths they
    are packed at. *)
Theorem X3_pack_injective (v v' D D' : Z) :
  pack_comp3_fixed v D = pack_comp3_fixed v' D' -> v = v'.
Proof.
  intros H.
  destruct (pack_unpack_any v D) as (b & Hp & Hu & _).
  destruct (pack_unpack_any v' D') as (b' & Hp' & Hu' & _).
  rewrite Hp, Hp' in H. injection H as <-. congruence.
Qed.

Lemma X3_pack_injective_witness : (-42) = (-42).
Proof.
  apply (X3_pack_injective (-42) (-42) 11 11). reflexivity.
Defined.

(** X4.  Whatever the width [D], every value whose magnitude fits in [D]
    digits is packed without error into [D / 2 + 1] bytes. *)
Theorem X4_pack_field_length (v D : Z) :
  0 <= D ->
  Z.abs v < 10 ^ D ->
  exists b,
    pack_comp3_fixed v D = Ok b /\ Z.of_nat (List.length b) = D / 2 + 1.
Proof.
  intros HD Hv.
  destruct (pack_unpack_any v D) as (b & Hp & _ & _).
  exists b. split; [exact Hp|].
  pose proof (pack_length v D b Hp) as Hl. cbv zeta in Hl.
  pose proof (ndigits_pos v) as Hpos.
  assert (Hm : Nat.max (Z.to_nat D) (ndigits v) = Nat.max (Z.to_nat D) 1).
  { destruct (Z.eq_dec D 0) as [->|HD0].
    - assert (v = 0) by (change (10 ^ 0) with 1 in Hv; lia). subst v.
      reflexivity.
    - pose proof (ndigits_fits v D ltac:(lia) Hv). lia. }
  rewrite Hm in Hl.
  set (m := Nat.max (Z.to_nat D) 1) in *.
  assert (Hdm : D / 2 = Z.of_nat m / 2).
  { destruct (Z.eq_dec D 0) as [->|HD0]; [reflexivity|].
    f_equal. unfold m. lia. }
  destruct (Nat.even m) eqn:He.
  - apply Nat.even_spec in He. destruct He as [k Hk].
    rewrite Hdm, Hk.
    replace (Z.of_nat (2 * k)) with (Z.of_nat k * 2) by lia.
    rewrite Z.div_mul by lia. lia.
  - assert (Ho : Nat.odd m = true) by (rewrite <- Nat.negb_even, He; reflexivity).
    apply Nat.odd_spec in Ho. destruct Ho as [k Hk].
    destruct (Z.eq_dec D 0) as [->|HD0].
    + change (0 / 2) with 0. unfold m in *. simpl in Hl. lia.
    + rewrite Hdm, Hk.
      replace (Z.of_nat (2 * k + 1)) with (1 + Z.of_nat k * 2) by lia.
      rewrite Z.div_add by lia. change (1 / 2) with 0. lia.
Qed.

Lemma X4_pack_field_length_witness :
  exists b,
    pack_comp3_fixed (-123456) 6 = Ok b /\ Z.of_nat (List.length b) = 6 / 2 + 1.
Proof.
  apply X4_pack_field_length; [lia | vm_compute; reflexivity].
Defined.

(** X5.  The [unpack_comp3] of decode_comp3.py, which multiplies by the
    sign, and the one of modern_runner.py and decode_accounts.py, which
    negates, agree on every byte string. *)
Theorem X5_unpack_copies_agree (b : list byte) :
  DecodeComp3.unpack_comp3 b = unpack_comp3 b.
Proof.
  unfold DecodeComp3.unpack_comp3, unpack_comp3.
  destruct (Py.pop (nibbles_of_bytes b)) as [[l s]|e]; [|reflexivity].
  cbn [bind]. destruct (Py.int _) as [val|e]; [|reflexivity].
  cbn [bind]. f_equal. destruct (s =? 13); lia.
Qed.

(** ** Rendering cents (decode_accounts.py) *)

Section CentsToStr.

Local Open Scope string_scope.

Lemma str_inj a b : 0 <= a -> 0 <= b -> Py.str a = Py.str b -> a = b.
Proof.
  intros Ha Hb H. rewrite !str_nonneg in H by assumption.
  apply (f_equal NilEmpty.uint_of_string) in H. rewrite !NilEmpty.usu in H.
  injection H as H. apply DecimalN.Unsigned.to_uint_inj in H. lia.
Qed.

(** Zero padding does not blur the number that is padded. *)
Lemma rjust_zero_inj a b w w' :
  0 <= a -> 0 <= b ->
  Py.rjust (Py.str a) w "0" = Py.rjust (Py.str b) w' "0" -> a = b.
Proof.
  intros Ha Hb H. rewrite !str_nonneg in H by assumption.
  destruct (rjust_zero (N.to_uint (Z.to_N a)) w) as (k & Hk & _).
  destruct (rjust_zero (N.to_uint (Z.to_N b)) w') as (k' & Hk' & _).
  rewrite Hk, Hk' in H.
  apply (f_equal NilEmpty.uint_of_string) in H. rewrite !NilEmpty.usu in H.
  injection H as H. apply (f_equal unorm) in H.
  rewrite !unorm_iter_D0, !unorm_to_uint in H.
  apply DecimalN.Unsigned.to_uint_inj in H. lia.
Qed.

(** A digit string is over at the first point. *)
Lemma digits_point_split d : forall d' t t',
  NilEmpty.string_of_uint d ++ String "." t
  = NilEmpty.string_of_uint d' ++ String "." t' ->
  NilEmpty.string_of_uint d = NilEmpty.string_of_uint d' /\ t = t'.
Proof.
  induction d; intros d' t t' H; destruct d';
    cbn [NilEmpty.string_of_uint String.append] in *;
    try discriminate;
    try (injection H as H; destruct (IHd _ _ _ H) as [-> ->]; now split).
  injection H as ->. now split.
Qed.

Lemma str_head_not_minus z s : 0 <= z -> Py.str z <> String "-" s.
Proof.
  intros Hz. rewrite str_nonneg by assumption.
  pose proof (N_to_uint_nonnil (Z.to_N z)) as Hn.
  destruct (N.to_uint (Z.to_N z)); try congruence; discriminate.
Qed.

End CentsToStr.

(** X6.  The rendering of cents as a decimal string, on which the
    comparison of two account files relies, tells every two amounts
    apart. *)
Theorem X6_cents_to_str_injective (n m : Z) :
  DecodeAccounts.cents_to_str n = DecodeAccounts.cents_to_str m -> n = m.
Proof.
  unfold DecodeAccounts.cents_to_str, format_0d.
  assert (Hn : 0 <= Z.abs n / 100) by (apply Z.div_pos; lia).
  assert (Hm : 0 <= Z.abs m / 100) by (apply Z.div_pos; lia).
  pose proof (Z.mod_pos_bound (Z.abs n) 100 ltac:(lia)) as Hrn.
  pose proof (Z.mod_pos_bound (Z.abs m) 100 ltac:(lia)) as Hrm.
  pose proof (Z.div_mod (Z.abs n) 100 ltac:(lia)) as Hdn.
  pose proof (Z.div_mod (Z.abs m) 100 ltac:(lia)) as Hdm.
  destruct (Z.ltb_spec (Z.abs n mod 100) 0) as [|_]; [lia|].
  destruct (Z.ltb_spec (Z.abs m mod 100) 0) as [|_]; [lia|].
  assert (Hcore :
    (Py.str (Z.abs n / 100) ++ "." ++ Py.rjust (Py.str (Z.abs n mod 100)) 2 "0")%string
    = (Py.str (Z.abs m / 100) ++ "." ++ Py.rjust (Py.str (Z.abs m mod 100)) 2 "0")%string
    -> Z.abs n = Z.abs m).
  { rewrite (str_nonneg (Z.abs n / 100)), (str_nonneg (Z.abs m / 100))
      by assumption.
    intros H. apply digits_point_split in H. destruct H as [Hq Hr].
    rewrite <- !str_nonneg in Hq by assumption.
    apply str_inj in Hq; try assumption.
    apply rjust_zero_inj in Hr; lia. }
  destruct (Z.ltb_spec n 0) as [Hn0|Hn0], (Z.ltb_spec m 0) as [Hm0|Hm0];
    cbn [String.append]; intros H.
  - injection H as H. apply Hcore in H. lia.
  - exfalso. symmetry in H. revert H.
    destruct (Py.str (Z.abs m / 100)) eqn:Hs; cbn [String.append];
      [discriminate|].
    intros H. injection H as -> _.
    now apply (str_head_not_minus (Z.abs m / 100) s).
  - exfalso. revert H.
    destruct (Py.str (Z.abs n / 100)) eqn:Hs; cbn [String.append];
      [discriminate|].
    intros H. injection H as -> _.
    now apply (str_head_not_minus (Z.abs n / 100) s).
  - apply Hcore in H. lia.
Qed.

Lemma X6_cents_to_str_injective_witness : (-5) = (-5).
Proof.
  apply X6_cents_to_str_injective. reflexivity.
Defined.

Example cents_to_str_examples :
  DecodeAccounts.cents_to_str (-5) = "-0.05"%string
  /\ DecodeAccounts.cents_to_str 123456 = "1234.56"%string
  /\ DecodeAccounts.cents_to_str 0 = "0.00"%string.
Proof. repeat split. Qed.

(** ** The fields of a record *)

Lemma ndigits_str_nonneg z :
  0 <= z -> ndigits z = String.length (Py.str z).
Proof. intros Hz. rewrite ndigits_str. now rewrite Z.abs_eq. Qed.

Section Fields.

Local Open Scope nat_scope.

(** *** Packed fields *)

Lemma packed_field v k :
  exists b,
    pack_comp3_fixed v (Z.of_nat (2 * k + 1)) = Ok b
    /\ unpack_comp3 b = Ok v
    /\ (if fits_digits v (Z.of_nat (2 * k + 1))
        then List.length b = k + 1 else k + 1 < List.length b).
Proof.
  destruct (pack_unpack_any v (Z.of_nat (2 * k + 1))) as (b & Hp & Hu & _).
  exists b. repeat split; auto.
  pose proof (pack_length _ _ _ Hp) as Hl. cbv zeta in Hl.
  rewrite Nat2Z.id in Hl. unfold fits_digits.
  destruct (Z.ltb_spec (Z.abs v) (10 ^ Z.of_nat (2 * k + 1))) as [Hfit|Hover].
  - pose proof (ndigits_fits v (Z.of_nat (2 * k + 1)) ltac:(lia) Hfit) as Hn.
    rewrite Nat2Z.id in Hn. rewrite Nat.max_l in Hl by assumption.
    replace (Nat.even (2 * k + 1)) with false in Hl; [lia|].
    symmetry. rewrite <- Nat.negb_odd. apply negb_false_iff, Nat.odd_spec.
    now exists k.
  - pose proof (ndigits_overflow v _ Hover) as Hn. rewrite Nat2Z.id in Hn.
    rewrite Nat.max_r in Hl by lia.
    destruct (Nat.even (ndigits v)); lia.
Qed.

(** *** Numbers printed with leading zeros *)

Lemma ascii_text_digits d : ascii_text (NilEmpty.string_of_uint d) = true.
Proof.
  unfold ascii_text. induction d; [reflexivity|..];
    cbn [NilEmpty.string_of_uint]; unfold list_byte_of_string in *;
    cbn [list_ascii_of_string map forallb]; rewrite IHd; reflexivity.
Qed.

Lemma rjust_length_max s w c :
  String.length (Py.rjust s w c) = Nat.max (Z.to_nat w) (String.length s).
Proof.
  unfold Py.rjust. rewrite string_length_app, replicate_length. lia.
Qed.

Lemma rjust_str z w :
  (0 <= z)%Z ->
  exists d,
    Py.rjust (Py.str z) w "0" = NilEmpty.string_of_uint d
    /\ d <> Nil /\ Z.of_uint d = z.
Proof.
  intros Hz. rewrite str_nonneg by assumption.
  destruct (rjust_zero (N.to_uint (Z.to_N z)) w) as (k & Hk & _).
  exists (Nat.iter k D0 (N.to_uint (Z.to_N z))). split; [exact Hk|]. split.
  - pose proof (N_to_uint_nonnil (Z.to_N z)). destruct k; simpl; congruence.
  - unfold Z.of_uint.
    rewrite <- DecimalPos.Unsigned.of_uint_norm, unorm_iter_D0,
      DecimalPos.Unsigned.of_uint_norm.
    change (Pos.of_uint (N.to_uint (Z.to_N z)))
      with (N.of_uint (N.to_uint (Z.to_N z))).
    rewrite DecimalN.Unsigned.of_to. lia.
Qed.

Lemma int_neg_uint d :
  d <> Nil ->
  Py.int (String "-" (NilEmpty.string_of_uint d)) = Ok (- Z.of_uint d)%Z.
Proof.
  intros Hd. unfold Py.int, Py.int_strip. cbn [Py.rstrip_by].
  rewrite rstrip_digits.
  assert (Hne : exists c r, NilEmpty.string_of_uint d = String c r)
    by (destruct d; try congruence; eexists; eexists; reflexivity).
  destruct Hne as (c & r & Hcr). rewrite Hcr. cbn [Py.lstrip_by].
  change (Py.int_space "-") with false. cbv iota.
  change (Ascii.eqb "-" "-") with true. cbv iota.
  rewrite <- Hcr, int_digits_uint by assumption.
  now rewrite NilEmpty.usu.
Qed.

(** [f"{z:0wd}"] is ASCII, is read back by [int] as [z], and is [w]
    characters long exactly when [z] fits the width. *)
Lemma number_field z w :
  (2 <= w)%Z ->
  ascii_text (format_0d z w) = true
  /\ Py.int (format_0d z w) = Ok z
  /\ format_0d z w <> EmptyString
  /\ (if fits_width z w
      then String.length (format_0d z w) = Z.to_nat w
      else Z.to_nat w < String.length (format_0d z w)).
Proof.
  intros Hw. unfold format_0d, fits_width.
  destruct (Z.ltb_spec z 0) as [Hneg|Hpos].
  - destruct (rjust_str (- z) (w - 1) ltac:(lia)) as (d & Hd & Hnil & Hval).
    split; [|split; [|split]].
    + rewrite Hd. unfold ascii_text, list_byte_of_string.
      cbn [list_ascii_of_string map forallb].
      apply (ascii_text_digits d).
    + rewrite Hd, int_neg_uint by assumption. f_equal. lia.
    + discriminate.
    + cbn [String.length]. rewrite rjust_length_max, <- ndigits_str_nonneg by lia.
      replace (z <? 10 ^ w)%Z with true
        by (symmetry; apply Z.ltb_lt; pose proof (Z.pow_pos_nonneg 10 w); lia).
      rewrite andb_true_r.
      destruct (Z.ltb_spec (- 10 ^ (w - 1)) z) as [Hfit|Hover].
      * pose proof (ndigits_fits (- z) (w - 1) ltac:(lia) ltac:(lia)). lia.
      * pose proof (ndigits_overflow (- z) (w - 1) ltac:(lia)). lia.
  - destruct (rjust_str z w Hpos) as (d & Hd & Hnil & Hval).
    split; [|split; [|split]].
    + rewrite Hd. apply ascii_text_digits.
    + now rewrite Hd, int_uint, Hval.
    + rewrite Hd. destruct d; try congruence; discriminate.
    + rewrite rjust_length_max, <- ndigits_str_nonneg by lia.
      replace (- 10 ^ (w - 1) <? z)%Z with true
        by (symmetry; apply Z.ltb_lt; pose proof (Z.pow_pos_nonneg 10 (w - 1)); lia).
      rewrite andb_true_l.
      destruct (Z.ltb_spec z (10 ^ w)) as [Hfit|Hover].
      * pose proof (ndigits_fits z w ltac:(lia) ltac:(lia)). lia.
      * pose proof (ndigits_overflow z w ltac:(lia)). lia.
Qed.

End Fields.

Section TextFields.

Local Open Scope nat_scope.

Lemma string_of_list_byte_app l1 l2 :
  string_of_list_byte (l1 ++ l2)
  = (string_of_list_byte l1 ++ string_of_list_byte l2)%string.
Proof.
  unfold string_of_list_byte.
  induction l1 as [|x l1 IH]; cbn [List.app map string_of_list_ascii String.append];
    [reflexivity|now rewrite IH].
Qed.

Lemma string_of_list_byte_blanks k :
  string_of_list_byte (repeat x20%byte k) = Py.replicate k " ".
Proof.
  unfold string_of_list_byte.
  induction k as [|k IH]; cbn [repeat map string_of_list_ascii Py.replicate];
    [reflexivity|now rewrite IH].
Qed.

Lemma decode_ascii_all b :
  forallb is_ascii_byte b = true -> decode_ascii_ignore b = string_of_list_byte b.
Proof.
  intros H. unfold decode_ascii_ignore. f_equal.
  apply filter_all. now apply forallb_forall.
Qed.

Lemma decode_encoded s :
  ascii_text s = true -> decode_ascii_ignore (list_byte_of_string s) = s.
Proof.
  intros H. rewrite decode_ascii_all by exact H.
  apply string_of_list_byte_of_string.
Qed.

Lemma rstrip_blanks s k :
  Py.rstrip (s ++ Py.replicate k " ")%string = Py.rstrip s.
Proof.
  unfold Py.rstrip. induction s as [|c s IH].
  - cbn [String.append]. induction k as [|k IHk]; [reflexivity|].
    cbn [Py.replicate Py.rstrip_by]. now rewrite IHk.
  - cbn [String.append Py.rstrip_by]. now rewrite IH.
Qed.

Lemma fit_short b n :
  List.length b <= n -> fit b n = b ++ repeat x20%byte (n - List.length b).
Proof.
  intros H. unfold fit. now rewrite firstn_all2 by assumption.
Qed.

Lemma forallb_blanks k : forallb is_ascii_byte (repeat x20%byte k) = true.
Proof. induction k; [reflexivity|assumption]. Qed.

(** A text without trailing blanks that is not longer than its field
    comes back from the padded field. *)
Lemma stripped_field s n :
  stripped_text s n = true ->
  encode_ascii s = Ok (list_byte_of_string s)
  /\ Py.rstrip (decode_ascii_ignore (fit (list_byte_of_string s) n)) = s.
Proof.
  unfold stripped_text. intros H.
  apply andb_true_iff in H. destruct H as [H Hstrip].
  apply andb_true_iff in H. destruct H as [Hascii Hlen].
  apply Nat.leb_le in Hlen. apply String.eqb_eq in Hstrip.
  split.
  - unfold encode_ascii. fold (ascii_text s). now rewrite Hascii.
  - rewrite fit_short by (now rewrite list_byte_of_string_length).
    rewrite decode_ascii_all.
    + rewrite string_of_list_byte_app, string_of_list_byte_of_string,
        string_of_list_byte_blanks, rstrip_blanks. exact Hstrip.
    + rewrite forallb_app. fold (ascii_text s).
      now rewrite Hascii, forallb_blanks.
Qed.

(** A text that fills its field comes back as it is. *)
Lemma exact_field s n :
  exact_text s n = true ->
  encode_ascii s = Ok (list_byte_of_string s)
  /\ decode_ascii_ignore (fit (list_byte_of_string s) n) = s.
Proof.
  unfold exact_text. intros H.
  apply andb_true_iff in H. destruct H as [Hascii Hlen].
  apply Nat.eqb_eq in Hlen.
  split.
  - unfold encode_ascii. fold (ascii_text s). now rewrite Hascii.
  - rewrite fit_short by (rewrite list_byte_of_string_length; lia).
    rewrite list_byte_of_string_length, Hlen, Nat.sub_diag.
    cbn [repeat]. rewrite List.app_nil_r. now apply decode_encoded.
Qed.

(** A number printed with leading zeros comes back from its bytes. *)
Lemma number_field_read z w :
  (2 <= w)%Z ->
  encode_ascii (format_0d z w) = Ok (list_byte_of_string (format_0d z w))
  /\ Py.int (Py.or (decode_ascii_ignore (list_byte_of_string (format_0d z w))) "0")
     = Ok z.
Proof.
  intros Hw. destruct (number_field z w Hw) as (Hascii & Hint & Hne & _).
  split.
  - unfold encode_ascii. fold (ascii_text (format_0d z w)). now rewrite Hascii.
  - rewrite decode_encoded by assumption.
    destruct (format_0d z w); [congruence|exact Hint].
Qed.

(** *** Slices of a record built field by field *)

Lemma slice_skip pre l i j n :
  List.length pre = n -> n <= i ->
  slice (pre ++ l) i j = slice l (i - n) (j - n).
Proof.
  intros Hn Hi. unfold slice.
  rewrite skipn_app, Hn, skipn_all2 by lia.
  cbn [List.app]. f_equal. lia.
Qed.

Lemma slice_take x post j :
  List.length x = j -> slice (x ++ post) 0 j = x.
Proof.
  intros Hj. unfold slice. cbn [skipn]. rewrite Nat.sub_0_r.
  rewrite firstn_app, Hj, Nat.sub_diag, firstn_O, List.app_nil_r.
  apply firstn_all2. lia.
Qed.

Lemma slice_all x j : List.length x = j -> slice x 0 j = x.
Proof.
  intros Hj. rewrite <- (List.app_nil_r x) at 1. now apply slice_take.
Qed.

End TextFields.

(** ** Writing records *)

Section WritingRecords.

Local Open Scope nat_scope.

Lemma encode_ascii_text s :
  encode_ascii s
  = if ascii_text s then Ok (list_byte_of_string s) else Raise UnicodeEncodeError.
Proof. reflexivity. Qed.

Lemma number_field_length z w :
  (2 <= w)%Z ->
  if fits_width z w
  then List.length (list_byte_of_string (format_0d z w)) = Z.to_nat w
  else Z.to_nat w < List.length (list_byte_of_string (format_0d z w)).
Proof.
  intros Hw. rewrite list_byte_of_string_length.
  now destruct (number_field z w Hw) as (_ & _ & _ & H).
Qed.

End WritingRecords.

(** X7.  [write_accounts] builds the record of an account exactly when
    the fields fit: the four texts are ASCII, the balance has at most 13
    digits, the limit at most 11, and both dates print in 8 characters.
    The record then has 58 bytes; in every other case an exception is
    raised and no longer or shorter record is ever returned. *)
Theorem X7_account_record_fits (a : Account.t) :
  match account_record a with
  | Ok out => account_fits a = true /\ List.length out = 58%nat
  | Raise _ => account_fits a = false
  end.
Proof.
  unfold account_record, account_fits. rewrite !encode_ascii_text.
  destruct (ascii_text (Account.ACCT_ID a)); cbn [bind andb]; [|reflexivity].
  destruct (ascii_text (Account.CUST_ID a)); cbn [bind andb]; [|reflexivity].
  destruct (ascii_text (Account.PRODUCT a)); cbn [bind andb]; [|reflexivity].
  destruct (ascii_text (Account.STATUS a)); cbn [bind andb]; [|reflexivity].
  destruct (packed_field (Account.CURR_BAL a) 6) as (bal & Hbal & _ & Hlbal).
  destruct (packed_field (Account.OD_LIMIT a) 5) as (od & Hod & _ & Hlod).
  change (Z.of_nat (2 * 6 + 1)) with 13 in *.
  change (Z.of_nat (2 * 5 + 1)) with 11 in *.
  rewrite Hbal, Hod. cbn [bind].
  destruct (number_field (Account.OPEN_DATE a) 8 ltac:(lia)) as (-> & _).
  destruct (number_field (Account.CLOSE_DATE a) 8 ltac:(lia)) as (-> & _).
  cbn [bind].
  pose proof (number_field_length (Account.OPEN_DATE a) 8 ltac:(lia)) as Hlo.
  pose proof (number_field_length (Account.CLOSE_DATE a) 8 ltac:(lia)) as Hlc.
  change (Z.to_nat 8) with 8%nat in *.
  rewrite !length_app, !fit_length. unfold ACCT_REC_LEN.
  destruct (fits_digits (Account.CURR_BAL a) 13),
           (fits_digits (Account.OD_LIMIT a) 11),
           (fits_width (Account.OPEN_DATE a) 8),
           (fits_width (Account.CLOSE_DATE a) 8); cbn [andb];
    match goal with
    | |- context [Z.eqb ?x 58] => destruct (Z.eqb_spec x 58) as [He|He]
    end;
    try reflexivity;
    first [ exfalso; lia
          | split; [reflexivity|]; rewrite !length_app, !fit_length; lia ].
Qed.

(** X8.  Likewise [write_exceptions] builds the record of a transaction
    exactly when its five texts are ASCII, the amount has at most 11
    digits and the timestamp prints in 14 characters; the record then has
    72 bytes. *)
Theorem X8_exception_record_fits (t : Txn.t) :
  match exception_record t with
  | Ok out => txn_fits t = true /\ List.length out = 72%nat
  | Raise _ => txn_fits t = false
  end.
Proof.
  unfold exception_record, txn_fits. rewrite !encode_ascii_text.
  destruct (ascii_text (Txn.ACCT_ID t)); cbn [bind andb]; [|reflexivity].
  destruct (ascii_text (Txn.TXN_ID t)); cbn [bind andb]; [|reflexivity].
  destruct (ascii_text (Txn.ORIG_ID t)); cbn [bind andb]; [|reflexivity].
  destruct (ascii_text (Txn.CODE t)); cbn [bind andb]; [|reflexivity].
  destruct (packed_field (Txn.AMOUNT t) 5) as (amount & Hamount & _ & Hla).
  change (Z.of_nat (2 * 5 + 1)) with 11 in *.
  rewrite Hamount. cbn [bind].
  destruct (number_field (Txn.TS t) 14 ltac:(lia)) as (-> & _).
  cbn [bind].
  pose proof (number_field_length (Txn.TS t) 14 ltac:(lia)) as Hlt.
  change (Z.to_nat 14) with 14%nat in *.
  destruct (ascii_text (Txn.CHANNEL t)); cbn [bind];
    [|now rewrite andb_false_r].
  rewrite andb_true_r.
  rewrite !length_app, !fit_length. unfold TXN_REC_LEN.
  destruct (fits_digits (Txn.AMOUNT t) 11), (fits_width (Txn.TS t) 14);
    cbn [andb];
    match goal with
    | |- context [Z.eqb ?x 72] => destruct (Z.eqb_spec x 72) as [He|He]
    end;
    try reflexivity;
    first [ exfalso; lia
          | split; [reflexivity|]; rewrite !length_app, !fit_length; lia ].
Qed.

(** ** Reading back what was written *)

Section RoundTrips.

Local Open Scope nat_scope.

Lemma account_layout (f1 f2 f3 f4 f5 f6 f7 f8 : list byte) :
  List.length f1 = 12 -> List.length f2 = 12 -> List.length f3 = 4 ->
  List.length f4 = 1 -> List.length f5 = 7 -> List.length f6 = 6 ->
  List.length f7 = 8 -> List.length f8 = 8 ->
  let rec := f1 ++ f2 ++ f3 ++ f4 ++ f5 ++ f6 ++ f7 ++ f8 in
  slice rec 0 12 = f1 /\ slice rec 12 24 = f2 /\ slice rec 24 28 = f3
  /\ slice rec 28 29 = f4 /\ slice rec 29 36 = f5 /\ slice rec 36 42 = f6
  /\ slice rec 42 50 = f7 /\ slice rec 50 58 = f8.
Proof.
  intros H1 H2 H3 H4 H5 H6 H7 H8 rec. unfold rec.
  repeat split.
  - now apply slice_take.
  - rewrite (slice_skip f1 _ _ _ 12 H1) by lia. now apply slice_take.
  - rewrite (slice_skip f1 _ _ _ 12 H1), (slice_skip f2 _ _ _ 12 H2) by (cbn; lia).
    now apply slice_take.
  - rewrite (slice_skip f1 _ _ _ 12 H1), (slice_skip f2 _ _ _ 12 H2),
      (slice_skip f3 _ _ _ 4 H3) by (cbn; lia).
    now apply slice_take.
  - rewrite (slice_skip f1 _ _ _ 12 H1), (slice_skip f2 _ _ _ 12 H2),
      (slice_skip f3 _ _ _ 4 H3), (slice_skip f4 _ _ _ 1 H4) by (cbn; lia).
    now apply slice_take.
  - rewrite (slice_skip f1 _ _ _ 12 H1), (slice_skip f2 _ _ _ 12 H2),
      (slice_skip f3 _ _ _ 4 H3), (slice_skip f4 _ _ _ 1 H4),
      (slice_skip f5 _ _ _ 7 H5) by (cbn; lia).
    now apply slice_take.
  - rewrite (slice_skip f1 _ _ _ 12 H1), (slice_skip f2 _ _ _ 12 H2),
      (slice_skip f3 _ _ _ 4 H3), (slice_skip f4 _ _ _ 1 H4),
      (slice_skip f5 _ _ _ 7 H5), (slice_skip f6 _ _ _ 6 H6) by (cbn; lia).
    now apply slice_take.
  - rewrite (slice_skip f1 _ _ _ 12 H1), (slice_skip f2 _ _ _ 12 H2),
      (slice_skip f3 _ _ _ 4 H3), (slice_skip f4 _ _ _ 1 H4),
      (slice_skip f5 _ _ _ 7 H5), (slice_skip f6 _ _ _ 6 H6),
      (slice_skip f7 _ _ _ 8 H7) by (cbn; lia).
    now apply slice_all.
Qed.

Lemma txn_layout (f1 f2 f3 f4 f5 f6 f7 : list byte) :
  List.length f1 = 12 -> List.length f2 = 16 -> List.length f3 = 16 ->
  List.length f4 = 4 -> List.length f5 = 6 -> List.length f6 = 14 ->
  List.length f7 = 4 ->
  let rec := f1 ++ f2 ++ f3 ++ f4 ++ f5 ++ f6 ++ f7 in
  slice rec 0 12 = f1 /\ slice rec 12 28 = f2 /\ slice rec 28 44 = f3
  /\ slice rec 44 48 = f4 /\ slice rec 48 54 = f5 /\ slice rec 54 68 = f6
  /\ slice rec 68 72 = f7.
Proof.
  intros H1 H2 H3 H4 H5 H6 H7 rec. unfold rec.
  repeat split.
  - now apply slice_take.
  - rewrite (slice_skip f1 _ _ _ 12 H1) by lia. now apply slice_take.
  - rewrite (slice_skip f1 _ _ _ 12 H1), (slice_skip f2 _ _ _ 16 H2) by (cbn; lia).
    now apply slice_take.
  - rewrite (slice_skip f1 _ _ _ 12 H1), (slice_skip f2 _ _ _ 16 H2),
      (slice_skip f3 _ _ _ 16 H3) by (cbn; lia).
    now apply slice_take.
  - rewrite (slice_skip f1 _ _ _ 12 H1), (slice_skip f2 _ _ _ 16 H2),
      (slice_skip f3 _ _ _ 16 H3), (slice_skip f4 _ _ _ 4 H4) by (cbn; lia).
    now apply slice_take.
  - rewrite (slice_skip f1 _ _ _ 12 H1), (slice_skip f2 _ _ _ 16 H2),
      (slice_skip f3 _ _ _ 16 H3), (slice_skip f4 _ _ _ 4 H4),
      (slice_skip f5 _ _ _ 6 H5) by (cbn; lia).
    now apply slice_take.
  - rewrite (slice_skip f1 _ _ _ 12 H1), (slice_skip f2 _ _ _ 16 H2),
      (slice_skip f3 _ _ _ 16 H3), (slice_skip f4 _ _ _ 4 H4),
      (slice_skip f5 _ _ _ 6 H5), (slice_skip f6 _ _ _ 14 H6) by (cbn; lia).
    now apply slice_all.
Qed.

End RoundTrips.

Section RecordRoundTrips.

Local Open Scope nat_scope.

Ltac split_andb H :=
  repeat match type of H with
         | (_ && _)%bool = true =>
             let H' := fresh "Hc" in
             apply andb_true_iff in H; destruct H as [H H']
         end.

Lemma account_record_read a :
  account_canonical a = true ->
  exists rec,
    account_record a = Ok rec /\ List.length rec = 58 /\ read_account rec = Ok a.
Proof.
  unfold account_canonical. intros H. split_andb H.
  rename H into Hid, Hc5 into Hcust, Hc4 into Hprod, Hc3 into Hstat,
    Hc2 into Hbal, Hc1 into Hod, Hc0 into Hopen, Hc into Hclose.
  destruct (stripped_field _ _ Hid) as [Eid Rid].
  destruct (stripped_field _ _ Hcust) as [Ecust Rcust].
  destruct (exact_field _ _ Hprod) as [Eprod Rprod].
  destruct (exact_field _ _ Hstat) as [Estat Rstat].
  destruct (packed_field (Account.CURR_BAL a) 6) as (bal & Ebal & Rbal & Lbal).
  destruct (packed_field (Account.OD_LIMIT a) 5) as (od & Eod & Rod & Lod).
  change (Z.of_nat (2 * 6 + 1)) with 13%Z in *.
  change (Z.of_nat (2 * 5 + 1)) with 11%Z in *.
  rewrite Hbal in Lbal. rewrite Hod in Lod.
  destruct (number_field_read (Account.OPEN_DATE a) 8 ltac:(lia)) as [Eopen Ropen].
  destruct (number_field_read (Account.CLOSE_DATE a) 8 ltac:(lia)) as [Eclose Rclose].
  pose proof (number_field_length (Account.OPEN_DATE a) 8 ltac:(lia)) as Lopen.
  pose proof (number_field_length (Account.CLOSE_DATE a) 8 ltac:(lia)) as Lclose.
  rewrite Hopen in Lopen. rewrite Hclose in Lclose.
  change (Z.to_nat 8) with 8 in *.
  destruct (account_layout
              (fit (list_byte_of_string (Account.ACCT_ID a)) 12)
              (fit (list_byte_of_string (Account.CUST_ID a)) 12)
              (fit (list_byte_of_string (Account.PRODUCT a)) 4)
              (fit (list_byte_of_string (Account.STATUS a)) 1)
              bal od
              (list_byte_of_string (format_0d (Account.OPEN_DATE a) 8))
              (list_byte_of_string (format_0d (Account.CLOSE_DATE a) 8)))
    as (S1 & S2 & S3 & S4 & S5 & S6 & S7 & S8);
    try apply fit_length; try assumption.
  eexists. split; [|split].
  - unfold account_record.
    rewrite Eid, Ecust, Eprod, Estat, Ebal, Eod, Eopen, Eclose. cbn [bind].
    rewrite !length_app, !fit_length, Lbal, Lod, Lopen, Lclose.
    reflexivity.
  - rewrite !length_app, !fit_length, Lbal, Lod, Lopen, Lclose. reflexivity.
  - unfold read_account.
    rewrite S1, S2, S3, S4, S5, S6, S7, S8.
    rewrite Rbal, Rod. cbn [bind]. rewrite Ropen, Rclose. cbn [bind].
    rewrite Rid, Rcust, Rprod, Rstat. now destruct a.
Qed.

Lemma exception_record_read t :
  txn_canonical t = true ->
  exists rec,
    exception_record t = Ok rec /\ List.length rec = 72
    /\ read_txn rec = Ok (with_RAW t rec).
Proof.
  unfold txn_canonical. intros H. split_andb H.
  rename H into Hid, Hc4 into Htxn, Hc3 into Horig, Hc2 into Hcode,
    Hc1 into Hamount, Hc0 into Hts, Hc into Hchan.
  destruct (stripped_field _ _ Hid) as [Eid Rid].
  destruct (stripped_field _ _ Htxn) as [Etxn Rtxn].
  destruct (stripped_field _ _ Horig) as [Eorig Rorig].
  destruct (exact_field _ _ Hcode) as [Ecode Rcode].
  destruct (exact_field _ _ Hchan) as [Echan Rchan].
  destruct (packed_field (Txn.AMOUNT t) 5) as (amount & Eam & Ram & Lam).
  change (Z.of_nat (2 * 5 + 1)) with 11%Z in *.
  rewrite Hamount in Lam.
  destruct (number_field_read (Txn.TS t) 14 ltac:(lia)) as [Ets Rts].
  pose proof (number_field_length (Txn.TS t) 14 ltac:(lia)) as Lts.
  rewrite Hts in Lts. change (Z.to_nat 14) with 14 in *.
  destruct (txn_layout
              (fit (list_byte_of_string (Txn.ACCT_ID t)) 12)
              (fit (list_byte_of_string (Txn.TXN_ID t)) 16)
              (fit (list_byte_of_string (Txn.ORIG_ID t)) 16)
              (fit (list_byte_of_string (Txn.CODE t)) 4)
              amount
              (list_byte_of_string (format_0d (Txn.TS t) 14))
              (fit (list_byte_of_string (Txn.CHANNEL t)) 4))
    as (S1 & S2 & S3 & S4 & S5 & S6 & S7);
    try apply fit_length; try assumption.
  eexists. split; [|split].
  - unfold exception_record.
    rewrite Eid, Etxn, Eorig, Ecode, Eam, Ets, Echan. cbn [bind].
    rewrite !length_app, !fit_length, Lam, Lts.
    reflexivity.
  - rewrite !length_app, !fit_length, Lam, Lts. reflexivity.
  - unfold read_txn.
    rewrite S1, S2, S3, S4, S5, S6, S7.
    rewrite Ram. cbn [bind]. rewrite Rts. cbn [bind].
    rewrite Rid, Rtxn, Rorig, Rcode, Rchan. reflexivity.
Qed.

(** *** The read loops, chunk by chunk *)

Lemma read_accounts_loop_enough n : forall file m,
  List.length file <= n -> n <= m ->
  read_accounts_loop m file = read_accounts_loop n file.
Proof.
  induction n as [|n IH]; intros file m Hlen Hm.
  - destruct file; [|simpl in Hlen; lia].
    destruct m; reflexivity.
  - destruct m as [|m]; [lia|]. cbn [read_accounts_loop].
    destruct (Z.of_nat (List.length (firstn 58 file)) <? ACCT_REC_LEN)%Z eqn:Hshort;
      [reflexivity|].
    rewrite (IH (skipn 58 file) m); [reflexivity| |lia].
    rewrite length_skipn.
    apply Z.ltb_ge in Hshort. rewrite length_firstn in Hshort.
    unfold ACCT_REC_LEN in Hshort. lia.
Qed.

Lemma read_accounts_loop_S n file :
  read_accounts_loop (S n) file
  = if (Z.of_nat (List.length (firstn 58 file)) <? ACCT_REC_LEN)%Z then Ok []
    else (acc <- read_account (firstn 58 file) ;;
          accs <- read_accounts_loop n (skipn 58 file) ;;
          Ok (acc :: accs)).
Proof. reflexivity. Qed.

Lemma read_txns_loop_S n file :
  read_txns_loop (S n) file
  = if (Z.of_nat (List.length (firstn 72 file)) <? TXN_REC_LEN)%Z then Ok []
    else (t <- read_txn (firstn 72 file) ;;
          txns <- read_txns_loop n (skipn 72 file) ;;
          Ok (t :: txns)).
Proof. reflexivity. Qed.

Lemma read_accounts_chunk rec rest :
  List.length rec = 58 ->
  read_accounts (rec ++ rest)
  = (acc <- read_account rec ;; accs <- read_accounts rest ;; Ok (acc :: accs)).
Proof.
  intros Hrec. unfold read_accounts.
  rewrite length_app, Hrec.
  change (58 + List.length rest) with (S (57 + List.length rest)).
  rewrite read_accounts_loop_S.
  rewrite firstn_app, Hrec, Nat.sub_diag, firstn_O, List.app_nil_r.
  rewrite firstn_all2 by lia. rewrite Hrec.
  change (Z.of_nat 58 <? ACCT_REC_LEN)%Z with false. cbv iota.
  rewrite skipn_app, Hrec, Nat.sub_diag, skipn_all2 by lia.
  cbn [List.app skipn].
  rewrite (read_accounts_loop_enough (List.length rest) rest) by lia.
  reflexivity.
Qed.

Lemma read_accounts_short file :
  List.length file < 58 -> read_accounts file = Ok [].
Proof.
  intros H. unfold read_accounts.
  destruct (List.length file) eqn:Hl; [reflexivity|].
  cbn [read_accounts_loop]. rewrite firstn_all2 by lia.
  rewrite Hl. unfold ACCT_REC_LEN.
  destruct (Z.ltb_spec (Z.of_nat (S n)) 58); [reflexivity|lia].
Qed.

Lemma read_txns_chunk rec rest :
  List.length rec = 72 ->
  read_txns (rec ++ rest)
  = (t <- read_txn rec ;; txns <- read_txns rest ;; Ok (t :: txns)).
Proof.
  intros Hrec. unfold read_txns.
  rewrite length_app, Hrec.
  change (72 + List.length rest) with (S (71 + List.length rest)).
  rewrite read_txns_loop_S.
  rewrite firstn_app, Hrec, Nat.sub_diag, firstn_O, List.app_nil_r.
  rewrite firstn_all2 by lia. rewrite Hrec.
  change (Z.of_nat 72 <? TXN_REC_LEN)%Z with false. cbv iota.
  rewrite skipn_app, Hrec, Nat.sub_diag, skipn_all2 by lia.
  cbn [List.app skipn].
  rewrite (read_txns_loop_enough (List.length rest) rest) by lia.
  reflexivity.
Qed.

Lemma read_txns_short file :
  List.length file < 72 -> read_txns file = Ok [].
Proof.
  intros H. unfold read_txns.
  destruct (List.length file) eqn:Hl; [reflexivity|].
  cbn [read_txns_loop]. rewrite firstn_all2 by lia.
  rewrite Hl. unfold TXN_REC_LEN.
  destruct (Z.ltb_spec (Z.of_nat (S n)) 72); [reflexivity|lia].
Qed.

End RecordRoundTrips.

(** X9.  An accounts file written by [write_accounts] is read back by
    [read_accounts] as the very accounts that were written, as long as
    each account is canonical: ids of at most 12 ASCII characters without
    trailing blanks, a product of 4 and a status of 1 ASCII characters, a
    balance of at most 13 and a limit of at most 11 digits, dates that
    print in 8 characters.  The file has 58 bytes per account. *)
Theorem X9_accounts_file_round_trip (accs : list Account.t) :
  forallb account_canonical accs = true ->
  exists file,
    write_accounts accs = Ok file
    /\ List.length file = (58 * List.length accs)%nat
    /\ read_accounts file = Ok accs.
Proof.
  induction accs as [|a accs IH]; intros H.
  - exists []. repeat split.
  - cbn [forallb] in H. apply andb_true_iff in H. destruct H as [Ha Haccs].
    destruct (IH Haccs) as (file & Hw & Hl & Hr).
    destruct (account_record_read a Ha) as (rec & Hrec & Hlrec & Hread).
    exists (rec ++ file). split; [|split].
    + cbn [write_accounts]. now rewrite Hrec, Hw.
    + rewrite length_app, Hlrec, Hl. cbn [List.length]. lia.
    + rewrite read_accounts_chunk by assumption. now rewrite Hread, Hr.
Qed.

Lemma X9_accounts_file_round_trip_witness :
  exists file,
    write_accounts [acct_A002; acct_A001] = Ok file
    /\ List.length file = (58 * List.length [acct_A002; acct_A001])%nat
    /\ read_accounts file = Ok [acct_A002; acct_A001].
Proof.
  apply X9_accounts_file_round_trip. vm_compute. reflexivity.
Defined.

(** X10.  An exceptions file written by [write_exceptions] for canonical
    transactions (ids without trailing blanks that fit their fields, a
    code and a channel of 4 ASCII characters, an amount of at most 11
    digits, a timestamp that prints in 14 characters) has 72 bytes per
    transaction and is read back by [read_txns] as the same transactions,
    field by field, whose raw bytes are, one after the other, the file. *)
Theorem X10_exceptions_file_round_trip (exceptions : list Txn.t) :
  forallb txn_canonical exceptions = true ->
  exists file txns,
    write_exceptions exceptions = Ok file
    /\ List.length file = (72 * List.length exceptions)%nat
    /\ read_txns file = Ok txns
    /\ map (fun t => with_RAW t []) txns = map (fun t => with_RAW t []) exceptions
    /\ List.concat (map Txn.RAW txns) = file.
Proof.
  induction exceptions as [|t l IH]; intros H.
  - exists [], []. repeat split.
  - cbn [forallb] in H. apply andb_true_iff in H. destruct H as [Ht Hl].
    destruct (IH Hl) as (file & txns & Hw & Hlen & Hr & Hsame & Hraw).
    destruct (exception_record_read t Ht) as (rec & Hrec & Hlrec & Hread).
    exists (rec ++ file), (with_RAW t rec :: txns). repeat split.
    + cbn [write_exceptions]. now rewrite Hrec, Hw.
    + rewrite length_app, Hlrec, Hlen. cbn [List.length]. lia.
    + rewrite read_txns_chunk by assumption. now rewrite Hread, Hr.
    + cbn [map]. now rewrite Hsame.
    + cbn [map List.concat]. now rewrite Hraw.
Qed.

Lemma X10_exceptions_file_round_trip_witness :
  exists file txns,
    write_exceptions [txn "A001" "T1" "WDRW" 20000 20250101090000] = Ok file
    /\ List.length file
       = (72 * List.length [txn "A001" "T1" "WDRW" 20000 20250101090000])%nat
    /\ read_txns file = Ok txns
    /\ map (fun t => with_RAW t []) txns
       = map (fun t => with_RAW t []) [txn "A001" "T1" "WDRW" 20000 20250101090000]
    /\ List.concat (map Txn.RAW txns) = file.
Proof.
  apply X10_exceptions_file_round_trip. vm_compute. reflexivity.
Defined.

Section ReadLoops.

Local Open Scope nat_scope.

Lemma read_txn_RAW rec t : read_txn rec = Ok t -> Txn.RAW t = rec.
Proof.
  unfold read_txn.
  destruct (unpack_comp3 _); [|discriminate]. cbn [bind].
  destruct (Py.int _); [|discriminate]. cbn [bind].
  now intros [= <-].
Qed.

Lemma read_txns_loop_chunks n : forall file l,
  List.length file <= n ->
  read_txns_loop n file = Ok l ->
  72 * List.length l <= List.length file < 72 * List.length l + 72
  /\ List.concat (map Txn.RAW l) = firstn (72 * List.length l) file.
Proof.
  induction n as [|n IH]; intros file l Hlen Hread.
  - destruct file; [|simpl in Hlen; lia].
    injection Hread as <-. cbn. split; [lia|reflexivity].
  - rewrite read_txns_loop_S in Hread.
    destruct (Z.ltb_spec (Z.of_nat (List.length (firstn 72 file))) TXN_REC_LEN)
      as [Hshort|Hfull]; unfold TXN_REC_LEN in *;
      rewrite length_firstn in *.
    + injection Hread as <-. cbn [List.length map List.concat].
      rewrite Nat.mul_0_r. cbn [firstn]. split; [lia|reflexivity].
    + destruct (read_txn (firstn 72 file)) as [t|] eqn:Ht; [|discriminate].
      cbn [bind] in Hread.
      destruct (read_txns_loop n (skipn 72 file)) as [l'|] eqn:Hl';
        [|discriminate].
      cbn [bind] in Hread. injection Hread as <-.
      destruct (IH (skipn 72 file) l') as [Hb Hraw];
        [rewrite length_skipn; lia|exact Hl'|].
      rewrite length_skipn in Hb. cbn [List.length map List.concat].
      split; [lia|].
      rewrite (read_txn_RAW _ _ Ht), Hraw.
      replace (72 * S (List.length l')) with (72 + 72 * List.length l') by lia.
      rewrite <- (firstn_skipn 72 file) at 3.
      rewrite firstn_app, length_firstn.
      replace (Nat.min 72 (List.length file)) with 72 by lia.
      rewrite firstn_firstn.
      replace (Nat.min (72 + 72 * List.length l') 72) with 72 by lia.
      f_equal. f_equal. lia.
Qed.

Lemma read_txns_loop_records n : forall file l,
  read_txns_loop n file = Ok l ->
  map Txn.RAW l
  = map (fun i => firstn 72 (skipn (72 * i) file)) (seq 0 (List.length l)).
Proof.
  induction n as [|n IH]; intros file l Hread.
  - injection Hread as <-. reflexivity.
  - rewrite read_txns_loop_S in Hread.
    destruct (Z.of_nat (List.length (firstn 72 file)) <? TXN_REC_LEN)%Z.
    + injection Hread as <-. reflexivity.
    + destruct (read_txn (firstn 72 file)) as [t|] eqn:Ht; [|discriminate].
      cbn [bind] in Hread.
      destruct (read_txns_loop n (skipn 72 file)) as [l'|] eqn:Hl';
        [|discriminate].
      cbn [bind] in Hread. injection Hread as <-.
      cbn [List.length seq map].
      rewrite (read_txn_RAW _ _ Ht), (IH _ _ Hl'), <- seq_shift, map_map.
      rewrite Nat.mul_0_r. change (skipn 0 file) with file. f_equal.
      apply map_ext. intros i. rewrite skipn_skipn.
      do 2 f_equal. lia.
Qed.

End ReadLoops.

(** X11.  [read_txns] cuts the file in records of 72 bytes from the
    start: it returns as many transactions as the file has complete
    records, the raw bytes kept with the transaction of rank [i] are the
    72 bytes of the file from offset [72 * i] on, so that all of them make
    up the file without the bytes of a last, incomplete record. *)
Theorem X11_read_txns_records (file : list byte) (txns : list Txn.t) :
  read_txns file = Ok txns ->
  List.length txns = (List.length file / 72)%nat
  /\ map Txn.RAW txns
     = map (fun i => firstn 72 (skipn (72 * i) file))
           (seq 0 (List.length txns))
  /\ List.concat (map Txn.RAW txns) = firstn (72 * List.length txns) file.
Proof.
  intros H.
  destruct (read_txns_loop_chunks (List.length file) file txns (le_n _) H)
    as [Hb Hraw].
  split; [|split; [exact (read_txns_loop_records _ _ _ H)|exact Hraw]].
  apply (Nat.div_unique _ 72 _ (List.length file - 72 * List.length txns)%nat); lia.
Qed.

Lemma X11_read_txns_records_witness :
  let file := scenario_A_record x0f ++ scenario_A_record x0c ++ [x00; x01]%byte in
  let txns :=
    [with_RAW (txn "A001" "T000000000000001" "WDRW" 20000 20250101120000)
       (scenario_A_record x0f);
     with_RAW (txn "A001" "T000000000000001" "WDRW" 20000 20250101120000)
       (scenario_A_record x0c)] in
  List.length txns = (List.length file / 72)%nat
  /\ map Txn.RAW txns
     = map (fun i => firstn 72 (skipn (72 * i) file))
           (seq 0 (List.length txns))
  /\ List.concat (map Txn.RAW txns) = firstn (72 * List.length txns) file.
Proof.
  intros file txns.
  apply (X11_read_txns_records file txns).
  vm_compute. reflexivity.
Defined.

(** ** decode_accounts.py against the reader of the batch *)

Section DecodeAccountsFacts.

Local Open Scope nat_scope.

Lemma unpack_nonempty b :
  b <> [] -> exists v, unpack_comp3 b = Ok v.
Proof.
  intros Hb. destruct (exists_last Hb) as (b' & x & ->).
  destruct (nibbles_of_bytes_snoc b' x) as (l & Hn & Hl).
  destruct (unpack_digits_sign _ _ _ Hn Hl) as (d & _ & ->).
  eexists. reflexivity.
Qed.

Lemma slice_length b i j :
  j <= List.length b -> List.length (slice b i j) = j - i.
Proof.
  intros H. unfold slice. rewrite length_firstn, length_skipn. lia.
Qed.

Lemma unpack_slice chunk i j :
  i < j -> j <= List.length chunk ->
  exists v, unpack_comp3 (slice chunk i j) = Ok v.
Proof.
  intros Hij Hj. apply unpack_nonempty.
  pose proof (slice_length chunk i j Hj) as Hl.
  destruct (slice chunk i j); [simpl in Hl; lia|discriminate].
Qed.

(** A complete record is always decoded. *)
Lemma decode_record_total chunk :
  List.length chunk = 58 ->
  exists r, DecodeAccounts.decode_record chunk = Ok r.
Proof.
  intros Hl. unfold DecodeAccounts.decode_record.
  destruct (unpack_slice chunk 29 36) as [bal ->]; [lia|lia|].
  destruct (unpack_slice chunk 36 42) as [od ->]; [lia|lia|].
  eexists. reflexivity.
Qed.

Lemma decode_accounts_loop_S n file :
  DecodeAccounts.decode_accounts_loop (S n) file
  = if (Z.of_nat (List.length (firstn 58 file)) <? DecodeAccounts.REC_LEN)%Z
    then Ok []
    else (r <- DecodeAccounts.decode_record (firstn 58 file) ;;
          records <- DecodeAccounts.decode_accounts_loop n (skipn 58 file) ;;
          Ok (r :: records)).
Proof. reflexivity. Qed.

Lemma decode_accounts_loop_total n : forall file,
  List.length file <= n ->
  exists rows,
    DecodeAccounts.decode_accounts_loop n file = Ok rows
    /\ 58 * List.length rows <= List.length file < 58 * List.length rows + 58.
Proof.
  induction n as [|n IH]; intros file Hlen.
  - destruct file; [|simpl in Hlen; lia].
    exists []. split; [reflexivity|simpl; lia].
  - rewrite decode_accounts_loop_S. unfold DecodeAccounts.REC_LEN.
    destruct (Z.ltb_spec (Z.of_nat (List.length (firstn 58 file))) 58)
      as [Hshort|Hfull]; rewrite length_firstn in *.
    + exists []. split; [reflexivity|simpl; lia].
    + destruct (decode_record_total (firstn 58 file)) as [r ->];
        [rewrite length_firstn; lia|].
      destruct (IH (skipn 58 file)) as (rows & -> & Hb);
        [rewrite length_skipn; lia|].
      rewrite length_skipn in Hb.
      exists (r :: rows). split; [reflexivity|]. cbn [List.length]. lia.
Qed.

Lemma decode_record_agrees chunk a :
  read_account chunk = Ok a ->
  exists r, DecodeAccounts.decode_record chunk = Ok r /\ row_of_account a r.
Proof.
  unfold read_account, DecodeAccounts.decode_record.
  destruct (unpack_comp3 (slice chunk 29 36)) as [bal|]; [|discriminate].
  destruct (unpack_comp3 (slice chunk 36 42)) as [od|]; [|discriminate].
  cbn [bind].
  destruct (Py.int _) as [open|]; [|discriminate]. cbn [bind].
  destruct (Py.int _) as [close|]; [|discriminate]. cbn [bind].
  intros [= <-]. eexists. split; [reflexivity|].
  repeat split.
Qed.

Lemma decode_accounts_loop_agrees n : forall file accs,
  read_accounts_loop n file = Ok accs ->
  exists rows,
    DecodeAccounts.decode_accounts_loop n file = Ok rows
    /\ Forall2 row_of_account accs rows.
Proof.
  induction n as [|n IH]; intros file accs H.
  - injection H as <-. exists []. split; [reflexivity|constructor].
  - rewrite read_accounts_loop_S in H. rewrite decode_accounts_loop_S.
    unfold DecodeAccounts.REC_LEN, ACCT_REC_LEN in *.
    destruct (Z.of_nat (List.length (firstn 58 file)) <? 58)%Z.
    + injection H as <-. exists []. split; [reflexivity|constructor].
    + destruct (read_account (firstn 58 file)) as [a|] eqn:Ha; [|discriminate].
      cbn [bind] in H.
      destruct (read_accounts_loop n (skipn 58 file)) as [accs'|] eqn:Haccs;
        [|discriminate].
      cbn [bind] in H. injection H as <-.
      destruct (decode_record_agrees _ _ Ha) as (r & -> & Hr).
      destruct (IH _ _ Haccs) as (rows & -> & Hrows).
      exists (r :: rows). split; [reflexivity|now constructor].
Qed.

End DecodeAccountsFacts.

(** X12.  [decode_accounts] never raises: whatever the bytes of the file,
    it returns one row per complete record of 58 bytes and leaves out an
    incomplete last record. *)
Theorem X12_decode_accounts_total (file : list byte) :
  exists rows,
    DecodeAccounts.decode_accounts file = Ok rows
    /\ List.length rows = (List.length file / 58)%nat.
Proof.
  destruct (decode_accounts_loop_total (List.length file) file (le_n _))
    as (rows & H & Hb).
  exists rows. split; [exact H|].
  apply (Nat.div_unique _ 58 _ (List.length file - 58 * List.length rows)%nat); lia.
Qed.

(** X13.  Whenever [read_accounts] of the batch reads a file,
    [decode_accounts] decodes it too, record by record to the same ids,
    product, status, balance and limit, the two amounts being rendered
    from the same cents. *)
Theorem X13_decode_accounts_agrees (file : list byte) (accs : list Account.t) :
  read_accounts file = Ok accs ->
  exists rows,
    DecodeAccounts.decode_accounts file = Ok rows
    /\ Forall2 row_of_account accs rows.
Proof.
  apply decode_accounts_loop_agrees.
Qed.

Lemma X13_decode_accounts_agrees_witness :
  exists rows,
    DecodeAccounts.decode_accounts scenario_A_accounts = Ok rows
    /\ Forall2 row_of_account [acct_A001] rows.
Proof.
  apply X13_decode_accounts_agrees. vm_compute. reflexivity.
Defined.

(** ** The batch *)

Section Batch.

Local Open Scope nat_scope.

Lemma read_accounts_loop_count n : forall file accs,
  List.length file <= n ->
  read_accounts_loop n file = Ok accs ->
  58 * List.length accs <= List.length file < 58 * List.length accs + 58.
Proof.
  induction n as [|n IH]; intros file accs Hlen H.
  - destruct file; [|simpl in Hlen; lia]. injection H as <-. simpl. lia.
  - rewrite read_accounts_loop_S in H. unfold ACCT_REC_LEN in H.
    destruct (Z.ltb_spec (Z.of_nat (List.length (firstn 58 file))) 58)
      as [Hshort|Hfull]; rewrite length_firstn in *.
    + injection H as <-. simpl. lia.
    + destruct (read_account (firstn 58 file)); [|discriminate].
      cbn [bind] in H.
      destruct (read_accounts_loop n (skipn 58 file)) as [accs'|] eqn:Haccs;
        [|discriminate].
      cbn [bind] in H. injection H as <-.
      pose proof (IH (skipn 58 file) accs') as Hb.
      rewrite length_skipn in Hb. specialize (Hb ltac:(lia) Haccs).
      cbn [List.length]. lia.
Qed.

Lemma account_record_length a out :
  account_record a = Ok out -> List.length out = 58.
Proof.
  unfold account_record.
  repeat (match goal with
          | |- context [bind ?r _] => destruct r; [|discriminate]; cbn [bind]
          end).
  unfold ACCT_REC_LEN.
  match goal with
  | |- context [Z.eqb ?x 58] => destruct (Z.eqb_spec x 58) as [He|]; [|discriminate]
  end.
  intros [= <-]. lia.
Qed.

Lemma exception_record_length t out :
  exception_record t = Ok out -> List.length out = 72.
Proof.
  unfold exception_record.
  repeat (match goal with
          | |- context [bind ?r _] => destruct r; [|discriminate]; cbn [bind]
          end).
  unfold TXN_REC_LEN.
  match goal with
  | |- context [Z.eqb ?x 72] => destruct (Z.eqb_spec x 72) as [He|]; [|discriminate]
  end.
  intros [= <-]. lia.
Qed.

Lemma write_accounts_length accs : forall file,
  write_accounts accs = Ok file -> List.length file = 58 * List.length accs.
Proof.
  induction accs as [|a accs IH]; intros file H.
  - injection H as <-. reflexivity.
  - cbn [write_accounts] in H.
    destruct (account_record a) as [out|] eqn:Hout; [|discriminate].
    cbn [bind] in H.
    destruct (write_accounts accs) as [more|]; [|discriminate].
    cbn [bind] in H. injection H as <-.
    rewrite length_app, (account_record_length _ _ Hout), (IH more eq_refl).
    cbn [List.length]. lia.
Qed.

Lemma write_exceptions_length l : forall file,
  write_exceptions l = Ok file -> List.length file = 72 * List.length l.
Proof.
  induction l as [|t l IH]; intros file H.
  - injection H as <-. reflexivity.
  - cbn [write_exceptions] in H.
    destruct (exception_record t) as [out|] eqn:Hout; [|discriminate].
    cbn [bind] in H.
    destruct (write_exceptions l) as [more|]; [|discriminate].
    cbn [bind] in H. injection H as <-.
    rewrite length_app, (exception_record_length _ _ Hout), (IH more eq_refl).
    cbn [List.length]. lia.
Qed.

Lemma subseq_length {X : Type} (l l' : list X) :
  subseq l l' -> List.length l <= List.length l'.
Proof. induction 1; cbn [List.length]; lia. Qed.

Lemma run_posting_lengths accs txns :
  List.length (fst (run_posting accs txns)) = List.length accs
  /\ List.length (snd (run_posting accs txns)) <= List.length txns.
Proof.
  split.
  - rewrite run_posting_eq.
    pose proof (posting_loop_frame (sorted_accounts accs) (sorted_txns txns) []
                  (sorted_txns_acct_sorted txns)) as Hf.
    apply Forall2_length in Hf. rewrite <- Hf.
    symmetry. apply Permutation_length, sorted_perm.
  - pose proof (subseq_length _ _ (exceptions_in_encounter_order accs txns)) as H.
    rewrite H. apply Nat.eq_le_incl. symmetry.
    apply Permutation_length, sorted_perm.
Qed.

End Batch.

(** X14.  A batch that runs to the end writes an accounts file with
    exactly as many records of 58 bytes as the accounts file it read has
    complete records, and an exceptions file made of records of 72 bytes,
    at most as many as the transactions file has complete records; and the
    batch stops on [SystemExit] exactly when one of its two input files is
    missing. *)
Theorem X14_main_outputs (acc_in txn_in : option (list byte)) :
  match main acc_in txn_in with
  | Completed accounts_out exceptions_out =>
      exists acc_file txn_file n,
        acc_in = Some acc_file /\ txn_in = Some txn_file
        /\ List.length accounts_out = (58 * (List.length acc_file / 58))%nat
        /\ List.length exceptions_out = (72 * n)%nat
        /\ (n <= List.length txn_file / 72)%nat
  | SystemExit => acc_in = None \/ txn_in = None
  | Crashed _ => acc_in <> None /\ txn_in <> None
  end.
Proof.
  unfold main.
  destruct acc_in as [acc_file|]; [|now left].
  destruct txn_in as [txn_file|]; [|now right].
  destruct (read_accounts acc_file) as [accs|] eqn:Haccs;
    [|cbn [bind]; split; discriminate].
  destruct (read_txns txn_file) as [txns|] eqn:Htxns;
    [|cbn [bind]; split; discriminate].
  cbn [bind].
  pose proof (run_posting_lengths accs txns) as [Hla Hle].
  destruct (run_posting accs txns) as [accs_out exceptions].
  cbn [fst snd] in Hla, Hle.
  destruct (write_accounts accs_out) as [accounts_out|] eqn:Hwa;
    [|cbn [bind]; split; discriminate].
  destruct (write_exceptions exceptions) as [exceptions_out|] eqn:Hwe;
    [|cbn [bind]; split; discriminate].
  cbn [bind].
  exists acc_file, txn_file, (List.length exceptions).
  pose proof (read_accounts_loop_count _ _ _ (le_n _) Haccs) as Hca.
  pose proof (read_txns_loop_chunks _ _ _ (le_n _) Htxns) as [Hct _].
  repeat split.
  - rewrite (write_accounts_length _ _ Hwa), Hla. f_equal.
    apply (Nat.div_unique _ 58 _ (List.length acc_file - 58 * List.length accs)%nat); lia.
  - apply (write_exceptions_length _ _ Hwe).
  - rewrite <- (Nat.div_unique (List.length txn_file) 72 (List.length txns)
               (List.length txn_file - 72 * List.length txns)%nat) by lia.
    exact Hle.
Qed.

Example main_scenario_A :
  main (Some scenario_A_accounts) (Some (scenario_A_record x0f))
  = Completed scenario_A_accounts (scenario_A_record x0c)
  /\ main None (Some (scenario_A_record x0f)) = SystemExit.
Proof. split; vm_compute; reflexivity. Qed.

(** ** More on the posting engine *)

Section Orphans.

(** Transactions that no account of the list asks for can be taken out
    of the sorted list. *)
Lemma posting_loop_restrict (p : Txn.t -> bool) accs : forall ts exc,
  (forall a t, In a accs -> same (Account.ACCT_ID a) t = true -> p t = true) ->
  StronglySorted acct_le ts ->
  posting_loop accs (filter p ts) exc = posting_loop accs ts exc.
Proof.
  induction accs as [|a rest IH]; intros ts exc Hp Hs; [reflexivity|].
  rewrite !posting_loop_cons by (auto using acct_sorted_filter). cbv zeta.
  assert (Hmine : filter (same (Account.ACCT_ID a)) (filter p ts)
                  = filter (same (Account.ACCT_ID a)) ts).
  { rewrite filter_filter. apply filter_ext. intros t.
    destruct (same (Account.ACCT_ID a) t) eqn:Hsame; [|apply andb_false_r].
    rewrite (Hp a t (or_introl eq_refl) Hsame). reflexivity. }
  rewrite Hmine, (filter_comm _ p).
  rewrite IH; [reflexivity| |now apply acct_sorted_filter].
  intros b t Hb. apply Hp. now right.
Qed.

Lemma refused_same_account a l :
  Forall (fun t => Txn.ACCT_ID t = Account.ACCT_ID a)
         (rejected a (filter (same (Account.ACCT_ID a)) l)).
Proof.
  assert (H : forall l', subseq l' (filter (same (Account.ACCT_ID a)) l) ->
                         Forall (fun t => Txn.ACCT_ID t = Account.ACCT_ID a) l').
  { intros l' Hsub. remember (filter (same (Account.ACCT_ID a)) l) as m eqn:Hm.
    assert (Hall : Forall (fun t => Txn.ACCT_ID t = Account.ACCT_ID a) m).
    { subst m. apply Forall_forall. intros t Ht. apply filter_In in Ht.
      destruct Ht as [_ Ht]. unfold same in Ht. now apply String.eqb_eq. }
    clear Hm. induction Hsub; inversion Hall; subst; auto. }
  apply H, rejected_subseq.
Qed.

Lemma posting_loop_owned accs : forall ts exc,
  StronglySorted acct_le ts ->
  exists more,
    snd (posting_loop accs ts exc) = exc ++ more
    /\ Forall (fun t => exists a, In a accs
                                  /\ Account.ACCT_ID a = Txn.ACCT_ID t) more.
Proof.
  induction accs as [|a rest IH]; intros ts exc Hs.
  - exists []. split; [now rewrite List.app_nil_r|constructor].
  - rewrite posting_loop_cons by assumption. cbv zeta. cbn [snd].
    destruct (IH (filter (above (Account.ACCT_ID a)) ts)
                 (exc ++ rejected a (filter (same (Account.ACCT_ID a)) ts)))
      as (more & -> & Hmore); [now apply acct_sorted_filter|].
    exists (rejected a (filter (same (Account.ACCT_ID a)) ts) ++ more).
    split; [now rewrite List.app_assoc|].
    apply Forall_app. split.
    + eapply Forall_impl; [|apply refused_same_account].
      intros t Ht. exists a. split; [now left|now symmetry].
    + eapply Forall_impl; [|exact Hmore].
      intros t (b & Hb & Hid). exists b. split; [now right|assumption].
Qed.

Lemma subseq_In {X : Type} (l l' : list X) x : subseq l l' -> In x l -> In x l'.
Proof.
  induction 1 as [|y l l' _ IH|y l l' _ IH]; intros Hx.
  - exact Hx.
  - right. auto.
  - destruct Hx as [->|Hx]; [now left|right; auto].
Qed.

End Orphans.

(** X15.  Orphan transactions, whose account id is the id of no account
    of the run, are dropped without a trace: the accounts and the
    exceptions of a run are those of the run without them.  With no
    transaction at all the accounts come back sorted and untouched. *)
Theorem X15_orphans_dropped (accs : list Account.t) (txns : list Txn.t) :
  run_posting accs txns
  = run_posting accs
      (filter (fun t => existsb (fun a => Account.ACCT_ID a =? Txn.ACCT_ID t)%string
                                accs) txns)
  /\ run_posting accs [] = (sorted_accounts accs, []).
Proof.
  split.
  - rewrite !run_posting_eq. unfold sorted_txns.
    rewrite (sorted_filter key_lt txn_key key_lt_asym key_lt_le_trans).
    symmetry. apply posting_loop_restrict; [|apply sorted_txns_acct_sorted].
    intros a t Ha Hsame. apply existsb_exists. exists a. split.
    + eapply Permutation_in; [|exact Ha].
      apply Permutation_sym, (sorted_perm String.ltb Account.ACCT_ID accs).
    + unfold same in Hsame. now rewrite String.eqb_sym.
  - rewrite run_posting_eq. apply posting_loop_nil.
Qed.

(** X16.  The exception list holds transactions of the input only, each
    of them a withdrawal of the as-of date on an account of the run, in
    the order in which they stand in the sorted transaction list. *)
Theorem X16_exceptions_come_from_input (accs : list Account.t) (txns : list Txn.t) :
  subseq (snd (run_posting accs txns)) (sorted_txns txns)
  /\ Forall (fun t =>
               In t txns
               /\ on_today t = true
               /\ Txn.CODE t = "WDRW"%string
               /\ exists a, In a accs /\ Account.ACCT_ID a = Txn.ACCT_ID t)
            (snd (run_posting accs txns)).
Proof.
  pose proof (exceptions_in_encounter_order accs txns) as Hsub.
  split; [exact Hsub|].
  pose proof (run_posting_refused accs txns) as Href.
  rewrite run_posting_eq in *.
  destruct (posting_loop_owned (sorted_accounts accs) (sorted_txns txns) []
              (sorted_txns_acct_sorted txns)) as (more & Hmore & Hown).
  cbn [List.app] in Hmore. rewrite Hmore in *.
  rewrite Forall_forall in *. intros t Ht.
  destruct (Href t Ht) as [Hday Hcode].
  destruct (Hown t Ht) as (a & Ha & Hid).
  repeat split; auto.
  - eapply Permutation_in;
      [apply Permutation_sym, (sorted_perm key_lt txn_key txns)|].
    eapply subseq_In; eauto.
  - exists a. split; [|exact Hid].
    eapply Permutation_in;
      [apply Permutation_sym, (sorted_perm String.ltb Account.ACCT_ID accs)
      |exact Ha].
Qed.

(** X17.  The date filter lets through the timestamps from
    20250101000000 up to, but not including, 20250102000000, whatever
    their time of day. *)
Theorem X17_on_today_range (t : Txn.t) :
  on_today t
  = (20250101000000 <=? Txn.TS t) && (Txn.TS t <? 20250102000000).
Proof.
  unfold on_today, yyyymmdd_from_ts, TODAY.
  pose proof (Z.div_mod (Txn.TS t) 1000000 ltac:(lia)) as Hdm.
  pose proof (Z.mod_pos_bound (Txn.TS t) 1000000 ltac:(lia)) as Hb.
  destruct (Z.eqb_spec (Txn.TS t / 1000000) 20250101) as [He|Hne];
    destruct (Z.leb_spec 20250101000000 (Txn.TS t));
    destruct (Z.ltb_spec (Txn.TS t) 20250102000000);
    cbn [andb]; try reflexivity; exfalso; lia.
Qed.

Section SortedUnique.

Context {A K : Type} (lt : K -> K -> bool) (key : A -> K).

Hypothesis lt_asym : forall a b, lt a b = true -> lt b a = false.
Hypothesis le_trans :
  forall a b c, lt b a = false -> lt c b = false -> lt c a = false.
Hypothesis lt_total : forall a b, lt a b = false -> lt b a = false -> a = b.

Lemma NoDup_key_inj l : forall x y,
  NoDup (map key l) -> In x l -> In y l -> key x = key y -> x = y.
Proof.
  induction l as [|z l IH]; intros x y Hnd Hx Hy Hk; [contradiction|].
  cbn [map] in Hnd. apply NoDup_cons_iff in Hnd. destruct Hnd as [Hz Hnd].
  destruct Hx as [->|Hx], Hy as [->|Hy]; auto.
  - exfalso. apply Hz. rewrite Hk. now apply in_map.
  - exfalso. apply Hz. rewrite <- Hk. now apply in_map.
Qed.

(** With keys used once there is one sorted arrangement only. *)
Lemma strongly_sorted_unique s : forall s',
  StronglySorted (key_le lt key) s -> StronglySorted (key_le lt key) s' ->
  Permutation s s' -> NoDup (map key s) -> s = s'.
Proof.
  induction s as [|x r IH]; intros s' Hs Hs' Hp Hnd.
  - apply Permutation_nil in Hp. now subst.
  - destruct s' as [|y r'];
      [apply Permutation_sym, Permutation_nil in Hp; discriminate|].
    apply StronglySorted_inv in Hs. destruct Hs as [Hr Hx].
    apply StronglySorted_inv in Hs'. destruct Hs' as [Hr' Hy].
    rewrite Forall_forall in Hx, Hy.
    assert (Hxy : x = y).
    { assert (Hx' : In x (y :: r')) by (eapply Permutation_in; [exact Hp|now left]).
      assert (Hy' : In y (x :: r))
        by (eapply Permutation_in; [apply Permutation_sym; exact Hp|now left]).
      destruct Hx' as [->|Hx']; [reflexivity|].
      destruct Hy' as [->|Hy']; [reflexivity|].
      apply (NoDup_key_inj (x :: r)); auto; [now left|now right|].
      apply lt_total; [apply (Hy x Hx')|apply (Hx y Hy')]. }
    subst y. f_equal. apply IH; auto.
    + now apply Permutation_cons_inv in Hp.
    + cbn [map] in Hnd. now apply NoDup_cons_iff in Hnd.
Qed.

Lemma sorted_permutation l l' :
  Permutation l l' -> NoDup (map key l) ->
  sorted lt key l = sorted lt key l'.
Proof.
  intros Hp Hnd. apply strongly_sorted_unique.
  - now apply sorted_sorted.
  - now apply sorted_sorted.
  - eapply perm_trans; [apply Permutation_sym, sorted_perm|].
    eapply perm_trans; [exact Hp|apply sorted_perm].
  - eapply Permutation_NoDup; [|exact Hnd].
    apply Permutation_map, sorted_perm.
Qed.

End SortedUnique.

Lemma key_lt_total k1 k2 :
  key_lt k1 k2 = false -> key_lt k2 k1 = false -> k1 = k2.
Proof.
  destruct k1 as [[a1 ts1] id1], k2 as [[a2 ts2] id2]. unfold key_lt.
  rewrite (String.eqb_sym a2 a1), (Z.eqb_sym ts2 ts1).
  destruct (String.eqb_spec a1 a2) as [->|Ha]; cbn [negb].
  - destruct (Z.eqb_spec ts1 ts2) as [->|Hts]; cbn [negb].
    + intros H1 H2. f_equal. now apply ltb_antisym.
    + intros H1 H2. apply Z.ltb_ge in H1, H2. lia.
  - intros H1 H2. exfalso. apply Ha. now apply ltb_antisym.
Qed.

(** X18.  With account ids used once and transaction keys
    [(ACCT_ID, TS, TXN_ID)] used once, the order in which the accounts and
    the transactions are handed to [run_posting] does not matter: any
    rearrangement of the two inputs gives the same accounts and the same
    exceptions. *)
Theorem X18_input_order_irrelevant
  (accs accs' : list Account.t) (txns txns' : list Txn.t) :
  Permutation accs accs' ->
  NoDup (map Account.ACCT_ID accs) ->
  Permutation txns txns' ->
  NoDup (map txn_key txns) ->
  run_posting accs txns = run_posting accs' txns'.
Proof.
  intros Hpa Hna Hpt Hnt. unfold run_posting.
  rewrite (sorted_permutation String.ltb Account.ACCT_ID
             ltb_asym ltb_le_trans ltb_antisym accs accs' Hpa Hna).
  rewrite (sorted_permutation key_lt txn_key
             key_lt_asym key_lt_le_trans key_lt_total txns txns' Hpt Hnt).
  reflexivity.
Qed.

Lemma X18_input_order_irrelevant_witness :
  run_posting [acct_A001; acct_A002]
    [txn "A001" "T1" "WDRW" 1000 20250101090000;
     txn "A002" "T2" "DEPO" 500 20250101080000]
  = run_posting [acct_A002; acct_A001]
      [txn "A002" "T2" "DEPO" 500 20250101080000;
       txn "A001" "T1" "WDRW" 1000 20250101090000].
Proof.
  apply X18_input_order_irrelevant.
  - apply perm_swap.
  - repeat constructor; simpl; intuition discriminate.
  - apply perm_swap.
  - repeat constructor; simpl; intuition discriminate.
Defined.

Section NoWithdrawal.

Lemma unguarded_total_perm l l' :
  Permutation l l' -> unguarded_total l = unguarded_total l'.
Proof.
  unfold unguarded_total.
  induction 1; cbn [fold_right]; lia.
Qed.

Lemma post_txn_no_withdrawal a t :
  withdrawal_today t = false ->
  Account.CURR_BAL (posted a [t]) = Account.CURR_BAL a + unguarded_amount t.
Proof.
  unfold withdrawal_today, unguarded_amount, on_today, posted, post_all.
  cbn [fold_left]. unfold post_txn.
  destruct (yyyymmdd_from_ts (Txn.TS t) =? TODAY); cbn [andb fst];
    [|intros _; lia].
  intros ->.
  destruct ((Txn.CODE t =? "DEPO")%string || (Txn.CODE t =? "FEE ")%string
            || (Txn.CODE t =? "INT ")%string);
    cbn [fst Account.set_CURR_BAL Account.CURR_BAL]; [reflexivity|].
  destruct (Txn.CODE t =? "REV ")%string;
    cbn [fst Account.set_CURR_BAL Account.CURR_BAL]; lia.
Qed.

Lemma posted_no_withdrawal l : forall a,
  Forall (fun t => withdrawal_today t = false) l ->
  Account.CURR_BAL (posted a l) = Account.CURR_BAL a + unguarded_total l.
Proof.
  induction l as [|t l IH]; intros a Hl.
  - cbn. lia.
  - inversion Hl; subst. rewrite posted_cons, IH by assumption.
    rewrite post_txn_no_withdrawal by assumption.
    cbn [unguarded_total fold_right]. fold (unguarded_total l). lia.
Qed.

Lemma exceptions_in_input accs txns t :
  In t (snd (run_posting accs txns)) -> In t txns.
Proof.
  intros H.
  eapply Permutation_in;
    [apply Permutation_sym, (sorted_perm key_lt txn_key txns)|].
  eapply subseq_In; [apply exceptions_in_encounter_order|exact H].
Qed.

End NoWithdrawal.

(** X19.  An account (ids being used once) without a withdrawal of the
    as-of date among its transactions ends a run with its balance plus
    the deposits, fees and interests and minus the reversals of that date,
    whatever the order of the transactions in the input, and none of its
    transactions is listed as an exception. *)
Theorem X19_balance_without_withdrawal
  (accs : list Account.t) (txns : list Txn.t) (a : Account.t) :
  NoDup (map Account.ACCT_ID accs) ->
  In a accs ->
  Forall (fun t => withdrawal_today t = false)
         (filter (same (Account.ACCT_ID a)) txns) ->
  let a' := posted a (applied (Account.ACCT_ID a) txns) in
  In a' (fst (run_posting accs txns))
  /\ frame a' = frame a
  /\ Account.CURR_BAL a'
     = Account.CURR_BAL a
       + unguarded_total (filter (same (Account.ACCT_ID a)) txns)
  /\ Forall (fun t => Txn.ACCT_ID t <> Account.ACCT_ID a)
            (snd (run_posting accs txns)).
Proof.
  intros Hnd Ha Hno a'.
  assert (Hperm : Permutation (filter (same (Account.ACCT_ID a)) txns)
                              (applied (Account.ACCT_ID a) txns)).
  { unfold applied, sorted_txns.
    rewrite <- (sorted_filter key_lt txn_key key_lt_asym key_lt_le_trans).
    apply sorted_perm. }
  split; [now apply run_posting_unique|].
  split; [apply posted_frame|].
  split.
  - unfold a'. rewrite posted_no_withdrawal.
    + f_equal. symmetry. now apply unguarded_total_perm.
    + eapply Permutation_Forall; eauto.
  - apply Forall_forall. intros t Ht Hid.
    pose proof (run_posting_refused accs txns) as Href.
    rewrite Forall_forall in Href. destruct (Href t Ht) as [Hday Hcode].
    rewrite Forall_forall in Hno.
    assert (Hw : withdrawal_today t = false).
    { apply Hno. apply filter_In. split.
      - eapply exceptions_in_input; eauto.
      - unfold same. now apply String.eqb_eq. }
    unfold withdrawal_today in Hw. rewrite Hday, Hcode in Hw. discriminate.
Qed.

Lemma X19_balance_without_withdrawal_witness :
  let txns := [txn "A002" "T2" "REV " 300 20250101100000;
               txn "A002" "T1" "DEPO" 500 20250101090000;
               txn "A001" "T3" "WDRW" 20000 20250101090000] in
  let a' := posted acct_A002 (applied (Account.ACCT_ID acct_A002) txns) in
  In a' (fst (run_posting [acct_A001; acct_A002] txns))
  /\ frame a' = frame acct_A002
  /\ Account.CURR_BAL a'
     = Account.CURR_BAL acct_A002
       + unguarded_total (filter (same (Account.ACCT_ID acct_A002)) txns)
  /\ Forall (fun t => Txn.ACCT_ID t <> Account.ACCT_ID acct_A002)
            (snd (run_posting [acct_A001; acct_A002] txns)).
Proof.
  intros txns.
  apply (X19_balance_without_withdrawal [acct_A001; acct_A002] txns acct_A002).
  - repeat constructor; simpl; intuition discriminate.
  - right. now left.
  - repeat constructor.
Defined.

(** ** What can go wrong when reading *)

Section ReadErrors.

Local Open Scope nat_scope.

Lemma int_only_ValueError s : only_ValueError (Py.int s).
Proof.
  unfold Py.int.
  destruct (match Py.int_strip s with
            | EmptyString => (false, Py.int_strip s)
            | String c r =>
                if Ascii.eqb c "-" then (true, r)
                else if Ascii.eqb c "+" then (false, r) else (false, Py.int_strip s)
            end) as [neg body].
  destruct (Py.int_digits body); [|reflexivity].
  destruct (NilEmpty.uint_of_string s0); [exact I|reflexivity].
Qed.

Lemma read_account_errors rec :
  List.length rec = 58 -> only_ValueError (read_account rec).
Proof.
  intros Hl. unfold read_account.
  destruct (unpack_slice rec 29 36) as [bal ->]; [lia|lia|].
  destruct (unpack_slice rec 36 42) as [od ->]; [lia|lia|].
  cbn [bind].
  pose proof (int_only_ValueError
                (Py.or (decode_ascii_ignore (slice rec 42 50)) "0")) as Ho.
  destruct (Py.int _); [|exact Ho]. cbn [bind].
  pose proof (int_only_ValueError
                (Py.or (decode_ascii_ignore (slice rec 50 58)) "0")) as Hc.
  destruct (Py.int _); [exact I|exact Hc].
Qed.

Lemma read_txn_errors rec :
  List.length rec = 72 -> only_ValueError (read_txn rec).
Proof.
  intros Hl. unfold read_txn.
  destruct (unpack_slice rec 48 54) as [amount ->]; [lia|lia|].
  cbn [bind].
  pose proof (int_only_ValueError
                (Py.or (decode_ascii_ignore (slice rec 54 68)) "0")) as Ht.
  destruct (Py.int _); [exact I|exact Ht].
Qed.

Lemma read_accounts_loop_errors n : forall file,
  only_ValueError (read_accounts_loop n file).
Proof.
  induction n as [|n IH]; intros file; [exact I|].
  rewrite read_accounts_loop_S. unfold ACCT_REC_LEN.
  destruct (Z.ltb_spec (Z.of_nat (List.length (firstn 58 file))) 58)
    as [|Hfull]; [exact I|].
  rewrite length_firstn in Hfull.
  pose proof (read_account_errors (firstn 58 file)) as Hr.
  rewrite length_firstn in Hr. specialize (Hr ltac:(lia)).
  destruct (read_account (firstn 58 file)); [|exact Hr]. cbn [bind].
  specialize (IH (skipn 58 file)).
  destruct (read_accounts_loop n (skipn 58 file)); [exact I|exact IH].
Qed.

Lemma read_txns_loop_errors n : forall file,
  only_ValueError (read_txns_loop n file).
Proof.
  induction n as [|n IH]; intros file; [exact I|].
  rewrite read_txns_loop_S. unfold TXN_REC_LEN.
  destruct (Z.ltb_spec (Z.of_nat (List.length (firstn 72 file))) 72)
    as [|Hfull]; [exact I|].
  rewrite length_firstn in Hfull.
  pose proof (read_txn_errors (firstn 72 file)) as Hr.
  rewrite length_firstn in Hr. specialize (Hr ltac:(lia)).
  destruct (read_txn (firstn 72 file)); [|exact Hr]. cbn [bind].
  specialize (IH (skipn 72 file)).
  destruct (read_txns_loop n (skipn 72 file)); [exact I|exact IH].
Qed.

Lemma int_blanks k :
  Py.int (Py.or (decode_ascii_ignore (repeat x20%byte (S k))) "0")
  = Raise ValueError.
Proof.
  rewrite decode_ascii_all by apply forallb_blanks.
  rewrite string_of_list_byte_blanks.
  cbn [Py.replicate Py.or].
  change (String " " (Py.replicate k " ")) with (Py.replicate (S k) " ").
  unfold Py.int.
  assert (Hstrip : Py.int_strip (Py.replicate (S k) " ") = EmptyString).
  { unfold Py.int_strip.
    assert (H : forall n, Py.rstrip_by Py.int_space (Py.replicate n " ")
                          = EmptyString).
    { induction n as [|n IHn]; [reflexivity|].
      cbn [Py.replicate Py.rstrip_by]. now rewrite IHn. }
    now rewrite H. }
  now rewrite Hstrip.
Qed.

End ReadErrors.

(** X20.  Whatever the bytes of the two input files, [read_accounts] and
    [read_txns] either return or raise [ValueError] (a date or timestamp
    field that [int] rejects); no other exception comes out of them. *)
Theorem X20_readers_raise_ValueError_only (file : list byte) :
  only_ValueError (read_accounts file) /\ only_ValueError (read_txns file).
Proof.
  split; [apply read_accounts_loop_errors|apply read_txns_loop_errors].
Qed.

(** X21.  A complete account record whose closing date is left blank
    (eight spaces) is not read as an account without closing date:
    [read_accounts] raises [ValueError] on it. *)
Theorem X21_blank_close_date_raises (rec rest : list byte) :
  List.length rec = 58%nat ->
  slice rec 50 58 = repeat x20%byte 8 ->
  read_accounts (rec ++ rest) = Raise ValueError.
Proof.
  intros Hl Hblank. rewrite read_accounts_chunk by assumption.
  pose proof (read_account_errors rec Hl) as Herr.
  unfold read_account in *. rewrite Hblank in *.
  destruct (unpack_comp3 (slice rec 29 36)); [|cbn [bind] in *; now rewrite Herr].
  destruct (unpack_comp3 (slice rec 36 42)); [|cbn [bind] in *; now rewrite Herr].
  cbn [bind] in *.
  destruct (Py.int (Py.or (decode_ascii_ignore (slice rec 42 50)) "0"));
    [|cbn [bind] in *; now rewrite Herr].
  cbn [bind]. rewrite (int_blanks 7). reflexivity.
Qed.

Lemma X21_blank_close_date_raises_witness :
  read_accounts
    ((list_byte_of_string "A001        C001        CHK A"
      ++ [x00; x00; x00; x00; x10; x00; x0c]%byte
      ++ [x00; x00; x00; x05; x00; x0c]%byte
      ++ list_byte_of_string "20200101        ") ++ [])
  = Raise ValueError.
Proof.
  apply X21_blank_close_date_raises; reflexivity.
Defined.
